(** * Kappa assembly utilities: a shallow embedding of [src/utils/asm-utils.ts]

    The TypeScript module locates, catalogs and removes functions inside
    assembly listings.  Every exported function of the module is translated
    below over Rocq strings; the properties of the boundary resolver, the
    catalog builder, the call reference extractor and the function editor
    follow.

    Conventions of the embedding.
    - A JavaScript string is a [string]; a character is a code unit in the
      range 0..255.  Line breaks are the single character LF, as in the
      source, which splits on ['\n'].
    - [trim], [includes], [startsWith], [split], [join], [slice] and
      [replace] follow the ECMAScript text of the same methods.
    - Regular expression literals are kept as data (a list of atoms) and run
      by a small backtracking matcher with leftmost, greedy semantics.
    - [-1] sentinels of the source are kept: line indices are in [Z]. *)

From Stdlib Require Import String Ascii List ZArith Lia Bool Arith.
Import ListNotations.

Local Open Scope list_scope.
Local Open Scope string_scope.

(* ================================================================== *)
(** ** Characters and character classes *)

Definition codeUnit (c : ascii) : nat := nat_of_ascii c.

Definition LF : ascii := ascii_of_nat 10.
Definition NL : string := String LF EmptyString.

(** ECMAScript [WhiteSpace] and [LineTerminator] code units below 256: TAB,
    LF, VT, FF, CR, SP and NBSP.  Both [String.prototype.trim] and the
    regular expression class [\s] use this set. *)
Definition isSpace (c : ascii) : bool :=
  let n := codeUnit c in
  (((9 <=? n) && (n <=? 13)) || (n =? 32) || (n =? 160))%nat.

(** The class [\w]: ASCII letters, digits and underscore. *)
Definition isWord (c : ascii) : bool :=
  let n := codeUnit c in
  (((48 <=? n) && (n <=? 57)) || ((65 <=? n) && (n <=? 90))
   || ((97 <=? n) && (n <=? 122)) || (n =? 95))%nat.

(** The class [.] (no [s] flag): anything but a line terminator. *)
Definition isDot (c : ascii) : bool :=
  let n := codeUnit c in negb ((n =? 10) || (n =? 13))%nat.

Definition isLF (c : ascii) : bool := (codeUnit c =? 10)%nat.

(* ================================================================== *)
(** ** String methods *)

Fixpoint dropWhile (p : ascii -> bool) (s : string) : string :=
  match s with
  | EmptyString => EmptyString
  | String c s' => if p c then dropWhile p s' else s
  end.

Definition trimStart (s : string) : string := dropWhile isSpace s.

Fixpoint trimEnd (s : string) : string :=
  match s with
  | EmptyString => EmptyString
  | String c s' =>
      match trimEnd s' with
      | EmptyString => if isSpace c then EmptyString else String c EmptyString
      | t => String c t
      end
  end.

(** [s.trim()] *)
Definition trim (s : string) : string := trimEnd (trimStart s).

(** [s.startsWith(p)] *)
Fixpoint startsWith (p s : string) : bool :=
  match p with
  | EmptyString => true
  | String a p' =>
      match s with
      | EmptyString => false
      | String b s' => Ascii.eqb a b && startsWith p' s'
      end
  end.

(** [s.includes(p)] *)
Fixpoint includes (p s : string) : bool :=
  startsWith p s ||
  match s with
  | EmptyString => false
  | String _ s' => includes p s'
  end.

Fixpoint dropN (n : nat) (s : string) : string :=
  match n with
  | O => s
  | S n' => match s with
            | EmptyString => EmptyString
            | String _ s' => dropN n' s'
            end
  end.

Fixpoint takeN (n : nat) (s : string) : string :=
  match n with
  | O => EmptyString
  | S n' => match s with
            | EmptyString => EmptyString
            | String c s' => String c (takeN n' s')
            end
  end.

(** [s.split('\n')]: never empty, the empty text has one empty line. *)
Fixpoint split (s : string) : list string :=
  match s with
  | EmptyString => [EmptyString]
  | String c s' =>
      if isLF c then EmptyString :: split s'
      else match split s' with
           | l :: ls => String c l :: ls
           | [] => [String c EmptyString]
           end
  end.

(** [lines.join('\n')] *)
Fixpoint join (ls : list string) : string :=
  match ls with
  | [] => EmptyString
  | [l] => l
  | l :: ls' => l ++ NL ++ join ls'
  end.

(** [lines.slice(a, b)] and [lines.slice(a)] for indices within [Z]; the
    source only calls them with [0 <= a]. *)
Definition slice (ls : list string) (a b : Z) : list string :=
  firstn (Z.to_nat (b - a)) (skipn (Z.to_nat a) ls).

Definition sliceFrom (ls : list string) (a : Z) : list string :=
  skipn (Z.to_nat a) ls.

(** [lines[j]]; the source never reads outside the array. *)
Definition lineAt (ls : list string) (j : Z) : string :=
  nth (Z.to_nat j) ls EmptyString.

(** [s.replace(pat, rep)] with a string pattern: the first occurrence only,
    and [s] itself when there is none. *)
Fixpoint replaceFirst (pat rep s : string) : string :=
  if startsWith pat s then rep ++ dropN (String.length pat) s
  else match s with
       | EmptyString => EmptyString
       | String c s' => String c (replaceFirst pat rep s')
       end.

(* ================================================================== *)
(** ** Regular expressions

    The fragment used by the source: literals, an alternation of literals,
    one character of a class, a greedy repetition of a class with a lower
    bound, and one capture group around such a repetition. *)

Inductive atom : Type :=
| Lit (s : string)
| Alt (alts : list string)
| One (p : ascii -> bool)
| Rep (min : nat) (p : ascii -> bool)
| Cap (min : nat) (p : ascii -> bool).

Definition regex : Type := list atom.

Fixpoint runLength (p : ascii -> bool) (s : string) : nat :=
  match s with
  | EmptyString => O
  | String c s' => if p c then S (runLength p s') else O
  end.

Definition stripPrefix (p s : string) : option string :=
  if startsWith p s then Some (dropN (String.length p) s) else None.

(** Greedy choice with backtracking: try the counts [n], [n-1], ..., [min]. *)
Fixpoint tryDown {A : Type} (f : nat -> option A) (n min : nat) : option A :=
  if (n <? min)%nat then None
  else match f n with
       | Some r => Some r
       | None => match n with
                 | O => None
                 | S n' => tryDown f n' min
                 end
       end.

Fixpoint firstSome {A B : Type} (f : A -> option B) (l : list A) : option B :=
  match l with
  | [] => None
  | a :: l' => match f a with
               | Some r => Some r
               | None => firstSome f l'
               end
  end.

(** [matchHere r s cap]: match [r] at the start of [s]; the result is the
    text of the capture group and the text left after the match. *)
Fixpoint matchHere (r : regex) (s : string) (cap : string)
  : option (string * string) :=
  match r with
  | [] => Some (cap, s)
  | Lit l :: r' =>
      match stripPrefix l s with
      | Some s' => matchHere r' s' cap
      | None => None
      end
  | Alt ls :: r' =>
      firstSome (fun l => match stripPrefix l s with
                          | Some s' => matchHere r' s' cap
                          | None => None
                          end) ls
  | One p :: r' =>
      match s with
      | String c s' => if p c then matchHere r' s' cap else None
      | EmptyString => None
      end
  | Rep min p :: r' =>
      tryDown (fun k => matchHere r' (dropN k s) cap) (runLength p s) min
  | Cap min p :: r' =>
      tryDown (fun k => matchHere r' (dropN k s) (takeN k s))
              (runLength p s) min
  end.

(** Leftmost match, as [RegExp.prototype.exec] without the sticky flag. *)
Fixpoint search (r : regex) (s : string) : option (string * string) :=
  match matchHere r s EmptyString with
  | Some m => Some m
  | None => match s with
            | EmptyString => None
            | String _ s' => search r s'
            end
  end.

(** [s.match(re)] followed by [m[1]]: [None] is the null result. *)
Definition matchGroup (r : regex) (s : string) : option string :=
  match search r s with
  | Some (g, _) => Some g
  | None => None
  end.

(** [s.replace(re, rep)] with the global flag.  The loop restarts after
    each match; [fuel] bounds the number of restarts and [length s + 1]
    restarts are always enough.  An empty match copies one character, as
    [AdvanceStringIndex] does. *)
Fixpoint replaceAllFrom (fuel : nat) (r : regex) (rep s : string) : string :=
  match fuel with
  | O => s
  | S fuel' =>
      match matchHere r s EmptyString with
      | Some (_, rest) =>
          if (String.length rest <? String.length s)%nat
          then rep ++ replaceAllFrom fuel' r rep rest
          else rep ++ match s with
                      | EmptyString => EmptyString
                      | String c s' => String c (replaceAllFrom fuel' r rep s')
                      end
      | None =>
          match s with
          | EmptyString => EmptyString
          | String c s' => String c (replaceAllFrom fuel' r rep s')
          end
      end
  end.

Definition replaceAll (r : regex) (rep s : string) : string :=
  replaceAllFrom (S (String.length s)) r rep s.

(** The regular expression literals of the source. *)

(** [/glabel\s+(\w+)/] *)
Definition reGlabel : regex := [Lit "glabel"; Rep 1 isSpace; Cap 1 isWord].
(** [/.size\s+(\w+)/]; the leading dot is the wildcard. *)
Definition reSize : regex :=
  [One isDot; Lit "size"; Rep 1 isSpace; Cap 1 isWord].
(** [/jal\s+(\w+)/] *)
Definition reJal : regex := [Lit "jal"; Rep 1 isSpace; Cap 1 isWord].
(** [/@\s*=(\w+)/] *)
Definition reRef : regex := [Lit "@"; Rep 0 isSpace; Lit "="; Cap 1 isWord].
(** [/(?:la|add|move).*=(\w+)/] *)
Definition reDirect : regex :=
  [Alt ["la"; "add"; "move"]; Rep 0 isDot; Lit "="; Cap 1 isWord].
(** [/\n{3,}/g] *)
Definition reBlank : regex := [Rep 3 isLF].

(* ================================================================== *)
(** ** [extractFunctionName] and [extractFunctionNameFromLine] *)

Definition extractFunctionNameFromLine (line : string) : option string :=
  let trimmed := trim line in
  match matchGroup reGlabel trimmed with
  | Some g => Some g
  | None => None
  end.

Definition isEmpty (s : string) : bool :=
  match s with EmptyString => true | _ => false end.

Definition extractFunctionName (asmCode : string) : option string :=
  let lines := split (trim asmCode) in
  firstSome (fun line =>
               match extractFunctionNameFromLine line with
               | Some n => if isEmpty n then None else Some n
               | None => None
               end) lines.

(* ================================================================== *)
(** ** [extractFunctionCallsFromAssembly]

    The JavaScript [Set] keeps insertion order and [Array.from] returns it:
    the set is a list without duplicates, extended at its end. *)

Definition setAdd (x : string) (l : list string) : list string :=
  if existsb (String.eqb x) l then l else (l ++ [x])%list.

Definition addMatch (m : option string) (l : list string) : list string :=
  match m with
  | Some x => setAdd x l
  | None => l
  end.

Definition jalMatch (trimmed : string) : option string :=
  matchGroup reJal trimmed.
Definition refMatch (trimmed : string) : option string :=
  matchGroup reRef trimmed.
Definition directMatch (trimmed : string) : option string :=
  matchGroup reDirect trimmed.

Definition callsStep (functionCalls : list string) (line : string)
  : list string :=
  let trimmed := trim line in
  let functionCalls := addMatch (jalMatch trimmed) functionCalls in
  let functionCalls := addMatch (refMatch trimmed) functionCalls in
  addMatch (directMatch trimmed) functionCalls.

Definition extractFunctionCallsFromAssembly (assembly : string)
  : list string :=
  fold_left callsStep (split assembly) [].

(* ================================================================== *)
(** ** [extractAssemblyFunction]

    The three mutable locals of the source are the fields of [scanState].
    The body of the outer [for] is [scanStep]; it either goes on to the
    next line or leaves the loop through [break]. *)

Record scanState : Type := mkScan {
  functionStart : Z;
  functionEnd : Z;
  inFunction : bool
}.

Definition initScan : scanState := mkScan (-1) (-1) false.

Inductive flow : Type :=
| Next (st : scanState)
| Break (st : scanState).

Definition isDataLine (prevLine : string) : bool :=
  startsWith ".size" prevLine || String.eqb prevLine ".align 3".

(** The innermost loop [for (k = j + 1; k < i; k++)].  [n] is the number of
    iterations left, [i - k].  Its first test reads [prevLine], the line of
    the enclosing backward loop, as the source does. *)
Fixpoint forwardScan (lines : list string) (prevLine : string)
         (n : nat) (k : Z) (fEnd : Z) : Z :=
  match n with
  | O => fEnd
  | S n' =>
      let nextLine := trim (lineAt lines k) in
      if isDataLine prevLine
      then forwardScan lines prevLine n' (k + 1) k
      else if negb (isEmpty nextLine) && negb (startsWith ".align" nextLine)
           then fEnd
           else forwardScan lines prevLine n' (k + 1) fEnd
  end.

(** The backward loop [for (j = i - 1; j >= functionStart; j--)].  [n] is
    the number of iterations left, [j - functionStart + 1]; the result is
    the value of [functionEnd] when the loop is left. *)
Fixpoint backwardScan (lines : list string) (i : Z) (n : nat) (j : Z) : Z :=
  match n with
  | O => (-1)%Z
  | S n' =>
      let prevLine := trim (lineAt lines j) in
      if isDataLine prevLine then j
      else if startsWith "jr " prevLine then
             let fEnd :=
               forwardScan lines prevLine (Z.to_nat (i - (j + 1))) (j + 1) (-1)
             in if (fEnd =? -1)%Z then j else fEnd
           else backwardScan lines i n' (j - 1)
  end.

(** The whole [if (line.includes('glabel'))] block: the backward search and
    its default [i - 1]. *)
Definition terminatorSearch (lines : list string) (fStart i : Z) : Z :=
  let fEnd := backwardScan lines i (Z.to_nat (i - fStart)) (i - 1) in
  if (fEnd =? -1)%Z then (i - 1)%Z else fEnd.

Definition scanStep (lines : list string) (functionName : string)
           (i : Z) (rawLine : string) (st : scanState) : flow :=
  let line := trim rawLine in
  if negb (inFunction st) then
    if includes ("glabel " ++ functionName) line
    then Next (mkScan i (functionEnd st) true)
    else if startsWith (functionName ++ ":") line
            && (functionStart st =? -1)%Z
         then Next (mkScan i (functionEnd st) true)
         else Next st
  else
    if includes (".size " ++ functionName) line
    then Break (mkScan (functionStart st) i (inFunction st))
    else if includes "glabel" line
         then Break (mkScan (functionStart st)
                            (terminatorSearch lines (functionStart st) i)
                            (inFunction st))
         else Next st.

(** The outer loop [for (i = 0; i < lines.length; i++)]; [rest] holds the
    lines from index [i] on. *)
Fixpoint scanLoop (lines : list string) (functionName : string)
         (rest : list string) (i : Z) (st : scanState) : scanState :=
  match rest with
  | [] => st
  | rawLine :: rest' =>
      match scanStep lines functionName i rawLine st with
      | Next st' => scanLoop lines functionName rest' (i + 1) st'
      | Break st' => st'
      end
  end.

Definition scan (lines : list string) (functionName : string) : scanState :=
  scanLoop lines functionName lines 0 initScan.

Definition extractAssemblyFunction (assemblyContent functionName : string)
  : option string :=
  let lines := split assemblyContent in
  let st := scan lines functionName in
  if negb (functionStart st =? -1)%Z && negb (functionEnd st =? -1)%Z
     && (functionEnd st >=? functionStart st)%Z
  then Some (join (slice lines (functionStart st) (functionEnd st + 1)))
  else None.

(* ================================================================== *)
(** ** [listAssemblyFunctions] *)

Record FunctionRecord : Type := mkRecord {
  name : string;
  code : string
}.

(** [currentFunction] with its [name] and [startIndex], and the array
    [functions], which only grows at its end. *)
Record listState : Type := mkList {
  currentFunction : option (string * Z);
  functions : list FunctionRecord
}.

Definition glabelMatch (line : string) : option string :=
  matchGroup reGlabel line.
Definition sizeMatch (line : string) : option string :=
  matchGroup reSize line.

Definition sizeClosesCurrent (line cur : string) : bool :=
  match sizeMatch line with
  | Some n => String.eqb n cur
  | None => false
  end.

Definition listStep (lines : list string) (i : Z) (rawLine : string)
           (st : listState) : listState :=
  let line := trim rawLine in
  match glabelMatch line with
  | Some functionName =>
      let functions' :=
        match currentFunction st with
        | Some (curName, startIndex) =>
            (functions st
               ++ [mkRecord curName (join (slice lines startIndex i))])%list
        | None => functions st
        end in
      mkList (Some (functionName, i)) functions'
  | None =>
      match currentFunction st with
      | Some (curName, startIndex) =>
          if sizeClosesCurrent line curName then
            mkList None
                   (functions st
                      ++ [mkRecord curName
                                   (join (slice lines startIndex (i + 1)))])%list
          else if includes "glabel" line then
            let functionName :=
              match glabelMatch line with
              | Some n => n
              | None => EmptyString
              end in
            mkList (Some (functionName, i))
                   (functions st
                      ++ [mkRecord curName
                                   (join (slice lines startIndex i))])%list
          else st
      | None => st
      end
  end.

Fixpoint listLoop (lines : list string) (rest : list string) (i : Z)
         (st : listState) : listState :=
  match rest with
  | [] => st
  | rawLine :: rest' => listLoop lines rest' (i + 1) (listStep lines i rawLine st)
  end.

Definition listFinish (lines : list string) (st : listState)
  : list FunctionRecord :=
  match currentFunction st with
  | Some (curName, startIndex) =>
      (functions st ++ [mkRecord curName (join (sliceFrom lines startIndex))])%list
  | None => functions st
  end.

Definition listAssemblyFunctions (assemblyContent : string)
  : list FunctionRecord :=
  let lines := split assemblyContent in
  listFinish lines (listLoop lines lines 0 (mkList None [])).

(* ================================================================== *)
(** ** [removeAssemblyFunction]

    The text transformation between reading and writing the module file.
    [None] stands for the thrown error [Function ... not found]; the file
    and editor calls around it are outside this development. *)

Definition removeAssemblyFunction (assemblyFileContent functionName : string)
  : option string :=
  match extractAssemblyFunction assemblyFileContent functionName with
  | None => None
  | Some functionCode =>
      if isEmpty functionCode then None
      else
        let updatedContent :=
          replaceFirst functionCode EmptyString assemblyFileContent in
        let cleanedContent := replaceAll reBlank (NL ++ NL) updatedContent in
        Some cleanedContent
  end.

(* ================================================================== *)
(** ** Vocabulary of the statements *)

(** A line on which the search for the start of [functionName] stops: its
    trimmed text contains [glabel functionName] or begins with
    [functionName:]. *)
Definition isStartMarker (functionName rawLine : string) : bool :=
  includes ("glabel " ++ functionName) (trim rawLine).
Definition isBareLabel (functionName rawLine : string) : bool :=
  startsWith (functionName ++ ":") (trim rawLine).
Definition isStart (functionName rawLine : string) : bool :=
  isStartMarker functionName rawLine || isBareLabel functionName rawLine.

(** [StartMarker(name)] in the words of the specification, which binds
    the name as an identifier: the text [glabel name] occurs on the line
    and no word character continues it, so [glabel foo] is no marker of
    [fo].  The source tests [isStartMarker], a plain substring test. *)
Definition beginsWithWord (s : string) : bool :=
  match s with
  | EmptyString => false
  | String c _ => isWord c
  end.

Fixpoint includesWhole (p s : string) : bool :=
  (startsWith p s && negb (beginsWithWord (dropN (String.length p) s)))
  || match s with
     | EmptyString => false
     | String _ s' => includesWhole p s'
     end.

Definition isWholeStartMarker (functionName rawLine : string) : bool :=
  includesWhole ("glabel " ++ functionName) (trim rawLine).

(** A line on which an open function is closed. *)
Definition isSizeMarker (functionName rawLine : string) : bool :=
  includes (".size " ++ functionName) (trim rawLine).
Definition hasGlabel (rawLine : string) : bool :=
  includes "glabel" (trim rawLine).
Definition isStop (functionName rawLine : string) : bool :=
  isSizeMarker functionName rawLine || hasGlabel rawLine.

(** The markers of the backward search. *)
Definition isReturnMarker (rawLine : string) : bool :=
  startsWith "jr " (trim rawLine).
Definition isFunctionData (rawLine : string) : bool :=
  isDataLine (trim rawLine).

(** Index of the first line of [rest] that satisfies [p], counted from [i];
    [-1] when there is none. *)
Fixpoint findFrom (p : string -> bool) (rest : list string) (i : Z) : Z :=
  match rest with
  | [] => (-1)%Z
  | l :: rest' => if p l then i else findFrom p rest' (i + 1)
  end.

(** The scan of [extractAssemblyFunction] written as two searches. *)
Definition scanSpec (lines : list string) (functionName : string) : scanState :=
  let s := findFrom (isStart functionName) lines 0 in
  if (s =? -1)%Z then initScan
  else
    let i := findFrom (isStop functionName)
                      (skipn (Z.to_nat (s + 1)) lines) (s + 1) in
    if (i =? -1)%Z then mkScan s (-1) true
    else if isSizeMarker functionName (lineAt lines i)
         then mkScan s i true
         else mkScan s (terminatorSearch lines s i) true.

Definition len (lines : list string) : Z := Z.of_nat (List.length lines).

(** The state in which [extractAssemblyFunction] leaves its loop: the
    resolved [functionStart] and [functionEnd]. *)
Definition boundary (assemblyContent functionName : string) : scanState :=
  scan (split assemblyContent) functionName.

(** Every character of [s] is in the class [p]. *)
Fixpoint allChars (p : ascii -> bool) (s : string) : bool :=
  match s with
  | EmptyString => true
  | String c s' => p c && allChars p s'
  end.

Fixpoint repeatNL (k : nat) : string :=
  match k with
  | O => EmptyString
  | S k' => String LF (repeatNL k')
  end.

Definition beginsWithLF (s : string) : bool := startsWith NL s.

Fixpoint endsWithLF (s : string) : bool :=
  match s with
  | EmptyString => false
  | String c EmptyString => isLF c
  | String _ s' => endsWithLF s'
  end.

(** The clean-up of [removeAssemblyFunction]:
    [updatedContent.replace(/\n{3,}/g, '\n\n')]. *)
Definition cleanUp (updatedContent : string) : string :=
  replaceAll reBlank (NL ++ NL) updatedContent.

(** The carriage return, and the line break of a text whose lines end in
    CR LF. *)
Definition CR : ascii := ascii_of_nat 13.
Definition CRLF : string := String CR NL.

(** The text of a module before and after a block of lines: the joined
    lines with the line break that separates them from the block. *)
Definition textBefore (P : list string) : string :=
  match P with
  | [] => EmptyString
  | _ => join P ++ NL
  end.

Definition textAfter (Q : list string) : string :=
  match Q with
  | [] => EmptyString
  | _ => NL ++ join Q
  end.


(** A line holds no line break. *)
Definition noLF (s : string) : bool := allChars (fun c => negb (isLF c)) s.

(** The catalog pass of [listAssemblyFunctions] with the lines of the open
    function carried along in place of its start index: [curOpen] holds
    the name and [lines.slice(startIndex, i)]. *)
Record catState : Type := mkCat {
  curOpen : option (string * list string);
  emitted : list FunctionRecord
}.

Definition catStep (st : catState) (rawLine : string) : catState :=
  let line := trim rawLine in
  match glabelMatch line with
  | Some functionName =>
      mkCat (Some (functionName, [rawLine]))
            match curOpen st with
            | Some (curName, ls) => (emitted st ++ [mkRecord curName (join ls)])%list
            | None => emitted st
            end
  | None =>
      match curOpen st with
      | Some (curName, ls) =>
          if sizeClosesCurrent line curName then
            mkCat None
                  (emitted st ++ [mkRecord curName (join (ls ++ [rawLine]))])%list
          else if includes "glabel" line then
            mkCat (Some (match glabelMatch line with
                         | Some n => n
                         | None => EmptyString
                         end, [rawLine]))
                  (emitted st ++ [mkRecord curName (join ls)])%list
          else mkCat (Some (curName, (ls ++ [rawLine])%list)) (emitted st)
      | None => st
      end
  end.

Definition catFinish (st : catState) : list FunctionRecord :=
  match curOpen st with
  | Some (curName, ls) => (emitted st ++ [mkRecord curName (join ls)])%list
  | None => emitted st
  end.

Definition catInit : catState := mkCat None [].

Definition catalogLines (ls : list string) : list FunctionRecord :=
  catFinish (fold_left catStep ls catInit).

(** The relation between the state of the source loop before line [i] and
    the state that carries the lines of the open function. *)
Definition catRel (lines : list string) (i : Z) (st : listState)
           (cst : catState) : Prop :=
  functions st = emitted cst /\
  match currentFunction st, curOpen cst with
  | None, None => True
  | Some (n, s), Some (n', ls) =>
      n = n' /\ (0 <= s <= i)%Z /\ ls = slice lines s i
  | _, _ => False
  end.

(** A line from which the catalog pass reads a function name. *)
Definition matchesStart (rawLine : string) : bool :=
  match glabelMatch (trim rawLine) with
  | Some _ => true
  | None => false
  end.

(** [Segmented lines records]: the records are, in file order, the joined
    text of non-empty groups of consecutive lines that do not overlap;
    lines between the groups belong to no record. *)
Inductive Segmented : list string -> list FunctionRecord -> Prop :=
| Seg_nil : Segmented [] []
| Seg_gap (ls : list string) (rs : list FunctionRecord) (l : string) :
    Segmented ls rs -> Segmented (ls ++ [l]) rs
| Seg_block (ls : list string) (rs : list FunctionRecord) (n : string)
            (b : list string) :
    Segmented ls rs -> b <> [] ->
    Segmented (ls ++ b) (rs ++ [mkRecord n (join b)]).

(** A record as the catalog pass builds it: a name made of word characters
    (possibly empty) and a code whose first line, the first element of
    [split (code r)], contains [glabel]. *)
Definition recordOk (r : FunctionRecord) : Prop :=
  allChars isWord (name r) = true /\
  exists l rest, split (code r) = l :: rest /\ includes "glabel" l = true.

Definition openOk (st : catState) : Prop :=
  match curOpen st with
  | Some (n, ls) =>
      allChars isWord n = true /\
      Forall (fun l => noLF l = true) ls /\
      exists l rest, ls = l :: rest /\ includes "glabel" l = true
  | None => True
  end.

Definition b2n (b : bool) : nat := if b then 1 else 0.


(** The lines of a text that are not empty, in order. *)
Definition nonEmptyLines (s : string) : list string :=
  filter (fun l => negb (isEmpty l)) (split s).

(** The lines of the function that is open in the catalog pass. *)
Definition openLines (st : catState) : list string :=
  match curOpen st with
  | Some (_, ls) => ls
  | None => []
  end.

Definition openCount (st : catState) : nat :=
  match curOpen st with
  | Some _ => 1
  | None => 0
  end.

(** The catalog pass after the lines [done]: what is emitted segments the
    lines before the open function. *)
Definition catInv (done : list string) (st : catState) : Prop :=
  exists pre,
    done = (pre ++ openLines st)%list /\ Segmented pre (emitted st).

(* ================================================================== *)
(** * Facts about strings *)

Lemma append_nil_r (s : string) : s ++ EmptyString = s.
Proof. induction s; simpl; congruence. Qed.

Lemma append_assoc (a b c : string) : (a ++ b) ++ c = a ++ (b ++ c).
Proof. induction a; simpl; congruence. Qed.

Lemma length_append (a b : string) :
  String.length (a ++ b) = (String.length a + String.length b)%nat.
Proof. induction a; simpl; congruence. Qed.

Lemma startsWith_append (p s : string) : startsWith p (p ++ s) = true.
Proof.
  induction p as [|a p IH]; simpl; [reflexivity|].
  now rewrite Ascii.eqb_refl, IH.
Qed.

Lemma startsWith_iff (p s : string) :
  startsWith p s = true <-> exists r, s = p ++ r.
Proof.
  split.
  - revert s. induction p as [|a p IH]; intros s H; simpl in *.
    + now exists s.
    + destruct s as [|b s]; [discriminate|].
      apply andb_true_iff in H as [Hab Hp].
      apply Ascii.eqb_eq in Hab. subst b.
      destruct (IH _ Hp) as [r ->]. now exists r.
  - intros [r ->]. apply startsWith_append.
Qed.

Lemma dropN_append (p s : string) : dropN (String.length p) (p ++ s) = s.
Proof. induction p; simpl; auto. Qed.

Lemma includes_String (p : string) (c : ascii) (s : string) :
  includes p (String c s) = startsWith p (String c s) || includes p s.
Proof. reflexivity. Qed.

Lemma includes_here (p s : string) :
  startsWith p s = true -> includes p s = true.
Proof. intros H. destruct s; simpl; rewrite H; reflexivity. Qed.

Lemma includes_cons (p : string) (c : ascii) (s : string) :
  includes p s = true -> includes p (String c s) = true.
Proof. intros H. simpl. rewrite H. apply orb_true_r. Qed.

Lemma includes_iff (p s : string) :
  includes p s = true <-> exists a b, s = a ++ p ++ b.
Proof.
  split.
  - induction s as [|c s IH]; simpl; intros H.
    + rewrite orb_false_r in H. apply startsWith_iff in H as [r Hr].
      exists EmptyString, r. exact Hr.
    + apply orb_true_iff in H as [H|H].
      * apply startsWith_iff in H as [r Hr]. exists EmptyString, r. exact Hr.
      * destruct (IH H) as (a & b & ->). now exists (String c a), b.
  - intros (a & b & ->). induction a as [|c a IH].
    + cbn [append]. apply includes_here, startsWith_append.
    + cbn [append]. apply includes_cons, IH.
Qed.

(** ** Trimming *)

Lemma trimStart_split (s : string) :
  exists w, s = w ++ trimStart s /\ allChars isSpace w = true.
Proof.
  unfold trimStart. induction s as [|c s IH]; cbn [dropWhile].
  - now exists EmptyString.
  - destruct (isSpace c) eqn:Hc.
    + destruct IH as (w & Hw & Hall). exists (String c w). cbn [append allChars].
      rewrite Hc, Hall. split; [congruence|reflexivity].
    + now exists EmptyString.
Qed.

Lemma trimEnd_split (s : string) :
  exists w, s = trimEnd s ++ w /\ allChars isSpace w = true.
Proof.
  induction s as [|c s IH]; cbn [trimEnd].
  - now exists EmptyString.
  - destruct IH as (w & Hw & Hall).
    destruct (trimEnd s) as [|d t] eqn:Ht.
    + cbn [append] in Hw. subst w. destruct (isSpace c) eqn:Hc.
      * exists (String c s). cbn [append allChars]. now rewrite Hc, Hall.
      * exists s. now cbn [append].
    + exists w. cbn [append] in *. split; [congruence|exact Hall].
Qed.

Lemma trim_split (s : string) :
  exists w1 w2, s = w1 ++ trim s ++ w2.
Proof.
  destruct (trimStart_split s) as (w1 & H1 & _).
  destruct (trimEnd_split (trimStart s)) as (w2 & H2 & _).
  exists w1, w2. unfold trim. now rewrite <- H2.
Qed.

Lemma trimStart_append_nonspace (x : string) (a : ascii) (r : string) :
  isSpace a = false ->
  exists x', trimStart (x ++ String a r) = x' ++ String a r.
Proof.
  intros Ha. unfold trimStart. induction x as [|c x IH]; cbn [append dropWhile].
  - rewrite Ha. now exists EmptyString.
  - destruct (isSpace c).
    + exact IH.
    + now exists (String c x).
Qed.

Lemma trimEnd_cons_nonspace (z : ascii) (y : string) :
  isSpace z = false -> trimEnd (String z y) = String z (trimEnd y).
Proof.
  intros Hz. cbn [trimEnd]. destruct (trimEnd y); [now rewrite Hz|reflexivity].
Qed.

Lemma trimEnd_append_nonspace (u : string) (z : ascii) (y : string) :
  isSpace z = false ->
  trimEnd (u ++ String z y) = u ++ String z (trimEnd y).
Proof.
  intros Hz. induction u as [|c u IH]; cbn [append].
  - apply trimEnd_cons_nonspace, Hz.
  - cbn [trimEnd]. rewrite IH. destruct u; reflexivity.
Qed.

(** A pattern that begins and ends with a character that is no white space
    is found in a line exactly when it is found in the trimmed line. *)
Lemma includes_trim (p q q' : string) (a z : ascii) (l : string) :
  p = String a q -> p = q' ++ String z EmptyString ->
  isSpace a = false -> isSpace z = false ->
  includes p (trim l) = includes p l.
Proof.
  intros Hp1 Hp2 Ha Hz.
  destruct (includes p l) eqn:E.
  - apply includes_iff in E as (x & y & ->).
    apply includes_iff. unfold trim.
    rewrite Hp1. cbn [append].
    destruct (trimStart_append_nonspace x a (q ++ y) Ha) as (x' & ->).
    assert (Hy : String a (q ++ y) = q' ++ String z y).
    { change (String a (q ++ y)) with (String a q ++ y).
      rewrite <- Hp1, Hp2, append_assoc. reflexivity. }
    rewrite Hy, <- append_assoc, trimEnd_append_nonspace by exact Hz.
    exists x', (trimEnd y).
    rewrite append_assoc. f_equal.
    change (String a (q ++ trimEnd y)) with (String a q ++ trimEnd y).
    rewrite <- Hp1, Hp2, append_assoc. reflexivity.
  - destruct (includes p (trim l)) eqn:E'; [|reflexivity].
    apply includes_iff in E' as (x & y & Hxy).
    destruct (trim_split l) as (w1 & w2 & Hl).
    assert (H : includes p l = true).
    { apply includes_iff. exists (w1 ++ x), (y ++ w2).
      rewrite Hl at 1. rewrite Hxy. now rewrite !append_assoc. }
    congruence.
Qed.

Lemma includes_glabel_trim (l : string) :
  includes "glabel" (trim l) = includes "glabel" l.
Proof.
  apply (includes_trim "glabel" "label" "glabe" "g"%char "l"%char);
    reflexivity.
Qed.

(* ================================================================== *)
(** * Searching a list of lines *)

Section FindFrom.
Variable p : string -> bool.

Lemma findFrom_range (rest : list string) (i : Z) :
  (0 <= i)%Z ->
  findFrom p rest i = (-1)%Z \/
  (i <= findFrom p rest i < i + len rest)%Z.
Proof.
  unfold len. revert i. induction rest as [|l rest IH]; intros i Hi; simpl.
  - now left.
  - destruct (p l).
    + right. lia.
    + destruct (IH (i + 1)%Z ltac:(lia)) as [H|H]; [now left|right; lia].
Qed.

Lemma findFrom_hit (rest : list string) (i k : Z) :
  (0 <= i)%Z -> findFrom p rest i = k -> k <> (-1)%Z ->
  p (nth (Z.to_nat (k - i)) rest EmptyString) = true /\
  forall j, (i <= j < k)%Z ->
            p (nth (Z.to_nat (j - i)) rest EmptyString) = false.
Proof.
  revert i. induction rest as [|l rest IH]; intros i Hi Hk Hne; simpl in Hk.
  - congruence.
  - destruct (p l) eqn:Hl.
    + subst k. replace (i - i)%Z with 0%Z by lia. simpl. split; [exact Hl|].
      intros j Hj. lia.
    + pose proof (findFrom_range rest (i + 1) ltac:(lia)) as Hr.
      destruct (IH (i + 1)%Z ltac:(lia) Hk Hne) as [H1 H2].
      assert (Hik : (i + 1 <= k)%Z) by lia.
      split.
      * replace (Z.to_nat (k - i)) with (S (Z.to_nat (k - (i + 1)))) by lia.
        exact H1.
      * intros j Hj. destruct (Z.eq_dec j i) as [->|Hji].
        -- replace (i - i)%Z with 0%Z by lia. exact Hl.
        -- replace (Z.to_nat (j - i)) with (S (Z.to_nat (j - (i + 1)))) by lia.
           apply H2. lia.
Qed.

Lemma findFrom_none (rest : list string) (i : Z) :
  (0 <= i)%Z -> findFrom p rest i = (-1)%Z ->
  forall j, (i <= j < i + len rest)%Z ->
            p (nth (Z.to_nat (j - i)) rest EmptyString) = false.
Proof.
  unfold len. revert i. induction rest as [|l rest IH]; intros i Hi Hk j Hj;
    simpl in *.
  - lia.
  - destruct (p l) eqn:Hl; [lia|].
    destruct (Z.eq_dec j i) as [->|Hji].
    + replace (i - i)%Z with 0%Z by lia. exact Hl.
    + replace (Z.to_nat (j - i)) with (S (Z.to_nat (j - (i + 1)))) by lia.
      apply IH; [lia|exact Hk|lia].
Qed.

Lemma findFrom_first (rest : list string) (i k : Z) :
  (0 <= i)%Z -> (i <= k < i + len rest)%Z ->
  p (nth (Z.to_nat (k - i)) rest EmptyString) = true ->
  (forall j, (i <= j < k)%Z ->
             p (nth (Z.to_nat (j - i)) rest EmptyString) = false) ->
  findFrom p rest i = k.
Proof.
  unfold len. revert i. induction rest as [|l rest IH]; intros i Hi Hk Hp Hlt;
    simpl in *.
  - lia.
  - destruct (Z.eq_dec k i) as [->|Hki].
    + replace (i - i)%Z with 0%Z in Hp by lia. simpl in Hp. now rewrite Hp.
    + assert (Hl : p l = false).
      { specialize (Hlt i ltac:(lia)).
        replace (i - i)%Z with 0%Z in Hlt by lia. exact Hlt. }
      rewrite Hl. apply IH; [lia|lia| |].
      * replace (Z.to_nat (k - i)) with (S (Z.to_nat (k - (i + 1)))) in Hp
          by lia. exact Hp.
      * intros j Hj. specialize (Hlt j ltac:(lia)).
        replace (Z.to_nat (j - i)) with (S (Z.to_nat (j - (i + 1)))) in Hlt
          by lia. exact Hlt.
Qed.
End FindFrom.

Lemma nth_skipn_Z (lines : list string) (a j : Z) :
  (0 <= a <= j)%Z ->
  nth (Z.to_nat (j - a)) (skipn (Z.to_nat a) lines) EmptyString
  = lineAt lines j.
Proof.
  intros H. unfold lineAt. rewrite nth_skipn. f_equal. lia.
Qed.

Lemma len_skipn (lines : list string) (a : Z) :
  (0 <= a <= len lines)%Z ->
  len (skipn (Z.to_nat a) lines) = (len lines - a)%Z.
Proof. unfold len. intros H. rewrite length_skipn. lia. Qed.

(* ================================================================== *)
(** * The scan of [extractAssemblyFunction] *)

(** The innermost loop only writes [functionEnd] when the line of the
    backward loop is function data, and the backward loop has left before
    reaching it in that case. *)
Lemma forwardScan_inert (lines : list string) (prevLine : string)
      (n : nat) (k fEnd : Z) :
  isDataLine prevLine = false ->
  forwardScan lines prevLine n k fEnd = fEnd.
Proof.
  intros H. revert k.
  induction n as [|n IH]; intros k; cbn [forwardScan]; [reflexivity|].
  cbv zeta. rewrite H.
  destruct (negb (isEmpty (trim (lineAt lines k)))
            && negb (startsWith ".align" (trim (lineAt lines k))));
    [reflexivity|apply IH].
Qed.

Lemma backwardScan_step (lines : list string) (i : Z) (n : nat) (j : Z) :
  backwardScan lines i (S n) j =
  if isFunctionData (lineAt lines j) || isReturnMarker (lineAt lines j)
  then j else backwardScan lines i n (j - 1).
Proof.
  unfold isFunctionData, isReturnMarker. cbn [backwardScan]. cbv zeta.
  destruct (isDataLine (trim (lineAt lines j))) eqn:Hd; cbn [orb];
    [reflexivity|].
  destruct (startsWith "jr " (trim (lineAt lines j))); [|reflexivity].
  rewrite forwardScan_inert by exact Hd. reflexivity.
Qed.

Lemma backwardScan_range (lines : list string) (i : Z) (n : nat) (j : Z) :
  backwardScan lines i n j = (-1)%Z \/
  (j - Z.of_nat n < backwardScan lines i n j <= j)%Z.
Proof.
  revert j. induction n as [|n IH]; intros j.
  - now left.
  - rewrite backwardScan_step.
    destruct (isFunctionData (lineAt lines j) || isReturnMarker (lineAt lines j)).
    + right. lia.
    + destruct (IH (j - 1)%Z) as [H|H]; [now left|right; lia].
Qed.

Lemma backwardScan_skip (lines : list string) (i : Z) (m n : nat) (j : Z) :
  (forall k, (j - Z.of_nat m < k <= j)%Z ->
             isFunctionData (lineAt lines k) = false /\
             isReturnMarker (lineAt lines k) = false) ->
  backwardScan lines i (m + n) j = backwardScan lines i n (j - Z.of_nat m).
Proof.
  revert j. induction m as [|m IH]; intros j H.
  - simpl. f_equal. lia.
  - change (S m + n)%nat with (S (m + n)). rewrite backwardScan_step.
    destruct (H j ltac:(lia)) as [-> ->]. simpl.
    rewrite IH.
    + f_equal. lia.
    + intros k Hk. apply H. lia.
Qed.

Lemma backwardScan_none (lines : list string) (i : Z) (n : nat) (j : Z) :
  (forall k, (j - Z.of_nat n < k <= j)%Z ->
             isFunctionData (lineAt lines k) = false /\
             isReturnMarker (lineAt lines k) = false) ->
  backwardScan lines i n j = (-1)%Z.
Proof.
  intros H. replace n with (n + 0)%nat by lia.
  rewrite backwardScan_skip by exact H. reflexivity.
Qed.

Lemma terminatorSearch_range (lines : list string) (s i : Z) :
  (s < i)%Z -> (s <= terminatorSearch lines s i < i)%Z.
Proof.
  intros H. unfold terminatorSearch.
  destruct (backwardScan_range lines i (Z.to_nat (i - s)) (i - 1)) as [E|E].
  - rewrite E. simpl. lia.
  - destruct (Z.eqb_spec (backwardScan lines i (Z.to_nat (i - s)) (i - 1)) (-1));
      lia.
Qed.

(** With a return marker at [j] and nothing the backward loop stops on after
    it, the search answers [j]. *)
Lemma terminatorSearch_return (lines : list string) (s i j : Z) :
  (0 <= s <= j)%Z -> (j < i)%Z ->
  isReturnMarker (lineAt lines j) = true ->
  (forall k, (j < k < i)%Z ->
             isFunctionData (lineAt lines k) = false /\
             isReturnMarker (lineAt lines k) = false) ->
  terminatorSearch lines s i = j.
Proof.
  intros Hs Hj Hret Hafter. unfold terminatorSearch.
  replace (Z.to_nat (i - s))
    with (Z.to_nat (i - 1 - j) + S (Z.to_nat (j - s)))%nat by lia.
  rewrite backwardScan_skip.
  - rewrite backwardScan_step.
    replace (i - 1 - Z.of_nat (Z.to_nat (i - 1 - j)))%Z with j by lia.
    rewrite Hret, orb_true_r.
    destruct (Z.eqb_spec j (-1)); [lia|reflexivity].
  - intros k Hk. apply Hafter. lia.
Qed.

Lemma scanLoop_searching (lines : list string) (functionName : string)
      (rest : list string) (i : Z) (st : scanState) :
  (0 <= i)%Z -> inFunction st = false -> functionStart st = (-1)%Z ->
  scanLoop lines functionName rest i st =
  let k := findFrom (isStart functionName) rest i in
  if (k =? -1)%Z then st
  else scanLoop lines functionName (skipn (S (Z.to_nat (k - i))) rest) (k + 1)
                (mkScan k (functionEnd st) true).
Proof.
  intros Hi Hin Hst. revert i Hi.
  induction rest as [|l rest IH]; intros i Hi; [reflexivity|].
  cbn [scanLoop findFrom]. unfold scanStep. rewrite Hin, Hst.
  cbn [negb]. unfold isStart, isStartMarker, isBareLabel.
  destruct (includes ("glabel " ++ functionName) (trim l)) eqn:Hg.
  - cbn [orb]. cbv zeta. destruct (Z.eqb_spec i (-1)); [lia|].
    replace (i - i)%Z with 0%Z by lia. reflexivity.
  - cbn [orb]. rewrite Z.eqb_refl, andb_true_r.
    destruct (startsWith (functionName ++ ":") (trim l)) eqn:Hb.
    + cbv zeta. destruct (Z.eqb_spec i (-1)); [lia|].
      replace (i - i)%Z with 0%Z by lia. reflexivity.
    + rewrite IH by lia. cbv zeta.
      pose proof (findFrom_range (isStart functionName) rest (i + 1)
                                 ltac:(lia)) as Hr.
      unfold isStart, isStartMarker, isBareLabel in *.
      destruct (Z.eqb_spec
                  (findFrom (fun rawLine =>
                     includes ("glabel " ++ functionName) (trim rawLine)
                     || startsWith (functionName ++ ":") (trim rawLine))
                     rest (i + 1)) (-1)) as [E|E]; [reflexivity|].
      destruct Hr as [Hr|Hr]; [contradiction|].
      match goal with
      | |- scanLoop _ _ (skipn (S (Z.to_nat (?k - (i + 1)))) rest) _ _ = _ =>
          replace (Z.to_nat (k - i)) with (S (Z.to_nat (k - (i + 1)))) by lia
      end.
      reflexivity.
Qed.

Lemma scanLoop_open (lines : list string) (functionName : string)
      (rest : list string) (i : Z) (st : scanState) :
  (0 <= i)%Z -> inFunction st = true ->
  scanLoop lines functionName rest i st =
  let k := findFrom (isStop functionName) rest i in
  if (k =? -1)%Z then st
  else if isSizeMarker functionName (nth (Z.to_nat (k - i)) rest EmptyString)
       then mkScan (functionStart st) k true
       else mkScan (functionStart st)
                   (terminatorSearch lines (functionStart st) k) true.
Proof.
  intros Hi Hin. revert i Hi.
  induction rest as [|l rest IH]; intros i Hi; [reflexivity|].
  cbn [scanLoop findFrom]. unfold scanStep. rewrite Hin.
  cbn [negb]. unfold isStop, isSizeMarker, hasGlabel.
  destruct (includes (".size " ++ functionName) (trim l)) eqn:Hs.
  - cbn [orb]. cbv zeta. destruct (Z.eqb_spec i (-1)); [lia|].
    replace (i - i)%Z with 0%Z by lia. cbn [Z.to_nat nth]. now rewrite Hs.
  - cbn [orb]. destruct (includes "glabel" (trim l)) eqn:Hg.
    + cbv zeta. destruct (Z.eqb_spec i (-1)); [lia|].
      replace (i - i)%Z with 0%Z by lia. cbn [Z.to_nat nth]. now rewrite Hs.
    + rewrite IH by lia. cbv zeta.
      pose proof (findFrom_range (isStop functionName) rest (i + 1)
                                 ltac:(lia)) as Hr.
      unfold isStop, isSizeMarker, hasGlabel in *.
      match goal with
      | |- context [(?k =? -1)%Z] => destruct (Z.eqb_spec k (-1)) as [E|E];
                                     [reflexivity|]
      end.
      destruct Hr as [Hr|Hr]; [contradiction|].
      match goal with
      | |- context [nth (Z.to_nat (?k - (i + 1))) rest EmptyString] =>
          replace (Z.to_nat (k - i)) with (S (Z.to_nat (k - (i + 1)))) by lia
      end.
      reflexivity.
Qed.

(** The loop of the source computes the two searches of [scanSpec]. *)
Lemma scan_scanSpec (lines : list string) (functionName : string) :
  scan lines functionName = scanSpec lines functionName.
Proof.
  unfold scan, scanSpec.
  rewrite scanLoop_searching by (reflexivity || lia). cbv zeta.
  pose proof (findFrom_range (isStart functionName) lines 0 ltac:(lia)) as Hr.
  set (s := findFrom (isStart functionName) lines 0) in *.
  destruct (Z.eqb_spec s (-1)) as [E|E]; [reflexivity|].
  destruct Hr as [Hr|Hr]; [contradiction|].
  rewrite scanLoop_open by (reflexivity || lia). cbv zeta.
  cbn [functionStart functionEnd inFunction initScan].
  replace (S (Z.to_nat (s - 0))) with (Z.to_nat (s + 1)) by lia.
  pose proof (findFrom_range (isStop functionName)
                (skipn (Z.to_nat (s + 1)) lines) (s + 1) ltac:(lia)) as Hq.
  set (i := findFrom (isStop functionName) (skipn (Z.to_nat (s + 1)) lines)
                     (s + 1)) in *.
  destruct (Z.eqb_spec i (-1)) as [Ei|Ei]; [reflexivity|].
  destruct Hq as [Hq|Hq]; [contradiction|].
  rewrite nth_skipn_Z by lia. reflexivity.
Qed.

Lemma boundary_start (content functionName : string) :
  functionStart (boundary content functionName)
  = findFrom (isStart functionName) (split content) 0.
Proof.
  unfold boundary. rewrite scan_scanSpec. unfold scanSpec. cbv zeta.
  destruct (Z.eqb_spec (findFrom (isStart functionName) (split content) 0) (-1))
    as [E|E]; [now rewrite E|].
  destruct (findFrom (isStop functionName) _ _ =? -1)%Z; [reflexivity|].
  destruct (isSizeMarker functionName _); reflexivity.
Qed.

Lemma boundary_start_range (content functionName : string) :
  functionStart (boundary content functionName) <> (-1)%Z ->
  (0 <= functionStart (boundary content functionName) < len (split content))%Z.
Proof.
  rewrite boundary_start. intros H.
  destruct (findFrom_range (isStart functionName) (split content) 0 ltac:(lia));
    [contradiction|lia].
Qed.

Lemma boundary_end (content functionName : string) :
  functionStart (boundary content functionName) <> (-1)%Z ->
  functionEnd (boundary content functionName) =
  let s := functionStart (boundary content functionName) in
  let i := findFrom (isStop functionName)
                    (skipn (Z.to_nat (s + 1)) (split content)) (s + 1) in
  if (i =? -1)%Z then (-1)%Z
  else if isSizeMarker functionName (lineAt (split content) i) then i
       else terminatorSearch (split content) s i.
Proof.
  rewrite boundary_start. unfold boundary. rewrite scan_scanSpec.
  unfold scanSpec. cbv zeta. intros H.
  destruct (Z.eqb_spec (findFrom (isStart functionName) (split content) 0) (-1))
    as [E|E]; [contradiction|].
  destruct (findFrom (isStop functionName) _ _ =? -1)%Z; [reflexivity|].
  destruct (isSizeMarker functionName _); reflexivity.
Qed.

(** The first stop line after the start, by index. *)
Lemma boundary_stop_first (content functionName : string) (i : Z) :
  functionStart (boundary content functionName) <> (-1)%Z ->
  (functionStart (boundary content functionName) < i < len (split content))%Z ->
  isStop functionName (lineAt (split content) i) = true ->
  (forall k, (functionStart (boundary content functionName) < k < i)%Z ->
             isStop functionName (lineAt (split content) k) = false) ->
  findFrom (isStop functionName)
           (skipn (Z.to_nat (functionStart (boundary content functionName) + 1))
                  (split content))
           (functionStart (boundary content functionName) + 1) = i.
Proof.
  intros Hs Hi Hstop Hbefore.
  pose proof (boundary_start_range _ _ Hs) as Hr.
  apply findFrom_first.
  - lia.
  - rewrite len_skipn by lia. lia.
  - rewrite nth_skipn_Z by lia. exact Hstop.
  - intros j Hj. rewrite nth_skipn_Z by lia. apply Hbefore. lia.
Qed.

Lemma extract_resolved (content functionName : string) :
  functionStart (boundary content functionName) <> (-1)%Z ->
  (functionStart (boundary content functionName)
   <= functionEnd (boundary content functionName))%Z ->
  extractAssemblyFunction content functionName
  = Some (join (slice (split content)
                      (functionStart (boundary content functionName))
                      (functionEnd (boundary content functionName) + 1))).
Proof.
  intros Hs Hle. pose proof (boundary_start_range _ _ Hs) as Hr.
  unfold extractAssemblyFunction. cbv zeta. fold (boundary content functionName).
  destruct (Z.eqb_spec (functionStart (boundary content functionName)) (-1));
    [contradiction|].
  destruct (Z.eqb_spec (functionEnd (boundary content functionName)) (-1));
    [lia|].
  cbn [negb andb].
  destruct (Z.geb_spec (functionEnd (boundary content functionName))
                       (functionStart (boundary content functionName)));
    [reflexivity|lia].
Qed.

Lemma extract_unresolved (content functionName : string) :
  functionEnd (boundary content functionName) = (-1)%Z ->
  extractAssemblyFunction content functionName = None.
Proof.
  intros He. unfold extractAssemblyFunction. cbv zeta.
  fold (boundary content functionName). rewrite He.
  cbn [Z.eqb negb]. rewrite andb_false_r. reflexivity.
Qed.

(* ================================================================== *)
(** * Properties of the boundary resolver *)

(** C1, as stated, fails: the start of [f] is found at line 0, no later
    line closes it, and the resolver reports not-found. *)
Lemma C1_start_found_end_missing :
  functionStart (boundary (join ["glabel f"; "nop"]) "f") = 0%Z /\
  extractAssemblyFunction (join ["glabel f"; "nop"]) "f" = None.
Proof. split; reflexivity. Qed.

(** C1 (amended): once a start line is found, the resolver returns the
    inclusive range from start to a resolved end whenever some later line
    contains [.size targetName] or [glabel]; when the buffer ends without
    such a line, no end is resolved and it reports not-found. *)
Theorem C1_end_resolved_iff_stop_line (content functionName : string) :
  functionStart (boundary content functionName) <> (-1)%Z ->
  ((exists i,
       (functionStart (boundary content functionName) < i
        < len (split content))%Z /\
       isStop functionName (lineAt (split content) i) = true) ->
   (functionStart (boundary content functionName)
    <= functionEnd (boundary content functionName) < len (split content))%Z /\
   extractAssemblyFunction content functionName
   = Some (join (slice (split content)
                       (functionStart (boundary content functionName))
                       (functionEnd (boundary content functionName) + 1))))
  /\
  ((forall i,
       (functionStart (boundary content functionName) < i
        < len (split content))%Z ->
       isStop functionName (lineAt (split content) i) = false) ->
   functionEnd (boundary content functionName) = (-1)%Z /\
   extractAssemblyFunction content functionName = None).
Proof.
  intros Hs. pose proof (boundary_start_range _ _ Hs) as Hr.
  pose proof (boundary_end _ _ Hs) as He. cbv zeta in He.
  set (s := functionStart (boundary content functionName)) in *.
  pose proof (findFrom_range (isStop functionName)
                (skipn (Z.to_nat (s + 1)) (split content)) (s + 1)
                ltac:(lia)) as Hq.
  rewrite len_skipn in Hq by lia.
  set (i := findFrom (isStop functionName)
                     (skipn (Z.to_nat (s + 1)) (split content)) (s + 1)) in *.
  split.
  - intros (k & Hk & Hstop).
    assert (Hi : i <> (-1)%Z).
    { intros E.
      pose proof (findFrom_none (isStop functionName) _ (s + 1)
                                ltac:(lia) E k) as Hn.
      rewrite len_skipn in Hn by lia. rewrite nth_skipn_Z in Hn by lia.
      rewrite Hn in Hstop by lia. discriminate. }
    destruct Hq as [Hq|Hq]; [contradiction|].
    destruct (Z.eqb_spec i (-1)); [contradiction|].
    assert (Hrange : (s <= functionEnd (boundary content functionName)
                      < len (split content))%Z).
    { rewrite He. destruct (isSizeMarker functionName (lineAt (split content) i)).
      - lia.
      - pose proof (terminatorSearch_range (split content) s i ltac:(lia)). lia. }
    split; [exact Hrange|].
    apply extract_resolved; [exact Hs|]. fold s. lia.
  - intros Hnone.
    assert (Hi : i = (-1)%Z).
    { destruct Hq as [Hq|Hq]; [exact Hq|]. exfalso.
      assert (Hne : i <> (-1)%Z) by lia.
      destruct (findFrom_hit (isStop functionName) _ (s + 1) i
                             ltac:(lia) eq_refl Hne) as [Hhit _].
      rewrite nth_skipn_Z in Hhit by lia.
      rewrite Hnone in Hhit by lia. discriminate. }
    rewrite Hi in He. cbn in He.
    split; [exact He|]. apply extract_unresolved, He.
Qed.

Lemma C1_end_resolved_iff_stop_line_witness :
  (functionStart (boundary (join ["glabel f"; "nop"; "glabel g"]) "f")
   <= functionEnd (boundary (join ["glabel f"; "nop"; "glabel g"]) "f")
   < len (split (join ["glabel f"; "nop"; "glabel g"])))%Z /\
  extractAssemblyFunction (join ["glabel f"; "nop"; "glabel g"]) "f"
  = Some (join (slice (split (join ["glabel f"; "nop"; "glabel g"]))
                      (functionStart
                         (boundary (join ["glabel f"; "nop"; "glabel g"]) "f"))
                      (functionEnd
                         (boundary (join ["glabel f"; "nop"; "glabel g"]) "f")
                       + 1))).
Proof.
  apply (C1_end_resolved_iff_stop_line
           (join ["glabel f"; "nop"; "glabel g"]) "f").
  - vm_compute. discriminate.
  - exists 2%Z. vm_compute. repeat split.
Defined.

(** C2, as stated, fails: the buffer has a [glabel f] line at index 1, yet
    the bare label [f:] at index 0 is taken as start. *)
Lemma C2_label_before_marker :
  isStartMarker "f" (lineAt (split (join ["f:"; "glabel f"; ".size f"])) 1)
  = true /\
  isStartMarker "f" (lineAt (split (join ["f:"; "glabel f"; ".size f"])) 0)
  = false /\
  functionStart (boundary (join ["f:"; "glabel f"; ".size f"]) "f") = 0%Z.
Proof. repeat split. Qed.

Lemma boundary_start_first (content functionName : string) (i : Z) :
  (0 <= i)%Z ->
  (functionStart (boundary content functionName) = i <->
   (i < len (split content))%Z /\
   isStart functionName (lineAt (split content) i) = true /\
   forall k, (0 <= k < i)%Z ->
             isStart functionName (lineAt (split content) k) = false).
Proof.
  intros Hi. rewrite boundary_start. split.
  - intros E.
    assert (Hne : i <> (-1)%Z) by lia.
    destruct (findFrom_range (isStart functionName) (split content) 0
                             ltac:(lia)) as [Hr|Hr]; [lia|].
    destruct (findFrom_hit (isStart functionName) (split content) 0 i
                           ltac:(lia) E Hne) as [Hhit Hbefore].
    replace (i - 0)%Z with i in Hhit by lia.
    split; [lia|]. split; [exact Hhit|].
    intros k Hk. specialize (Hbefore k Hk).
    now replace (k - 0)%Z with k in Hbefore by lia.
  - intros (Hlt & Hhit & Hbefore).
    apply findFrom_first.
    + lia.
    + lia.
    + replace (i - 0)%Z with i by lia. exact Hhit.
    + intros k Hk. replace (k - 0)%Z with k by lia.
      apply Hbefore. exact Hk.
Qed.

Lemma includesWhole_includes (p s : string) :
  includesWhole p s = true -> includes p s = true.
Proof.
  induction s as [|c s IH]; cbn [includesWhole includes]; intros H.
  - apply orb_true_iff in H as [H|H]; [|discriminate].
    apply andb_true_iff in H as [H _]. now rewrite H.
  - apply orb_true_iff in H as [H|H].
    + apply andb_true_iff in H as [H _]. now rewrite H.
    + rewrite (IH H). apply orb_true_r.
Qed.

Lemma isWholeStartMarker_isStartMarker (functionName l : string) :
  isWholeStartMarker functionName l = true ->
  isStartMarker functionName l = true.
Proof. apply includesWhole_includes. Qed.

(** C2 (amended): take a buffer in which, up to line [i], every line that
    contains the text [glabel targetName] has it ended there as an
    identifier, with no word character after it.  Then [i] is the start
    exactly when it is the first line that is either a
    [StartMarker(targetName)] line or a [BareLabel(targetName)] line.  So
    the first [StartMarker(targetName)] line is the start when no
    [BareLabel(targetName)] line precedes it, and a bare label is the start
    only when no [StartMarker(targetName)] line comes before it. *)
Theorem C2_start_is_first_marker_or_label
        (content functionName : string) (i : Z) :
  (0 <= i)%Z ->
  (forall k, (0 <= k <= i)%Z ->
             isStartMarker functionName (lineAt (split content) k) = true ->
             isWholeStartMarker functionName (lineAt (split content) k)
             = true) ->
  (functionStart (boundary content functionName) = i <->
   (i < len (split content))%Z /\
   (isWholeStartMarker functionName (lineAt (split content) i)
    || isBareLabel functionName (lineAt (split content) i)) = true /\
   forall k, (0 <= k < i)%Z ->
             isWholeStartMarker functionName (lineAt (split content) k)
             = false /\
             isBareLabel functionName (lineAt (split content) k) = false).
Proof.
  intros Hi Hwhole.
  assert (Heq : forall k, (0 <= k <= i)%Z ->
                  isWholeStartMarker functionName (lineAt (split content) k)
                  = isStartMarker functionName (lineAt (split content) k)).
  { intros k Hk.
    destruct (isStartMarker functionName (lineAt (split content) k)) eqn:E.
    - now apply Hwhole.
    - destruct (isWholeStartMarker functionName (lineAt (split content) k))
        eqn:E'; [|reflexivity].
      apply isWholeStartMarker_isStartMarker in E'. congruence. }
  rewrite (boundary_start_first content functionName i Hi).
  unfold isStart. rewrite (Heq i) by lia.
  split; intros (Hlt & Hhit & Hbefore); (split; [exact Hlt|]);
    (split; [exact Hhit|]); intros k Hk.
  - rewrite (Heq k) by lia. apply orb_false_iff. now apply Hbefore.
  - destruct (Hbefore k Hk) as [H1 H2]. rewrite (Heq k) in H1 by lia.
    now rewrite H1, H2.
Qed.

Lemma C2_start_is_first_marker_or_label_witness :
  functionStart
    (boundary (join ["glabel g"; "glabel f"; "f:"; "glabel fx"]) "f") = 1%Z <->
  (1 < len (split (join ["glabel g"; "glabel f"; "f:"; "glabel fx"])))%Z /\
  (isWholeStartMarker
     "f" (lineAt (split (join ["glabel g"; "glabel f"; "f:"; "glabel fx"])) 1)
   || isBareLabel
        "f" (lineAt (split (join ["glabel g"; "glabel f"; "f:"; "glabel fx"]))
                    1)) = true /\
  forall k, (0 <= k < 1)%Z ->
            isWholeStartMarker
              "f" (lineAt (split (join ["glabel g"; "glabel f"; "f:";
                                        "glabel fx"])) k) = false /\
            isBareLabel
              "f" (lineAt (split (join ["glabel g"; "glabel f"; "f:";
                                        "glabel fx"])) k) = false.
Proof.
  apply (C2_start_is_first_marker_or_label
           (join ["glabel g"; "glabel f"; "f:"; "glabel fx"]) "f" 1).
  - lia.
  - intros k Hk. assert (Ek : k = 0%Z \/ k = 1%Z) by lia.
    destruct Ek as [->| ->]; vm_compute; intros H; (discriminate || exact H).
Defined.

(** The marker test of the source is a substring test: a [glabel foo] line
    is taken as the start of [fo], though it is no marker of [fo]. *)
Lemma start_marker_accepts_longer_name :
  functionStart (boundary (join ["glabel foo"; "glabel fo"; ".size fo"]) "fo")
  = 0%Z /\
  isStartMarker "fo" "glabel foo" = true /\
  isWholeStartMarker "fo" "glabel foo" = false /\
  isWholeStartMarker "fo" "glabel fo" = true.
Proof. repeat split. Qed.

(** C4: when the line that ends the scan is a [glabel] line and the
    backward search meets a return marker at [j] before any [.size] or
    [.align 3] line, the resolved end is [j]: the forward scan inside that
    branch never moves it. *)
Theorem C4_return_marker_is_end (content functionName : string) (i j : Z) :
  functionStart (boundary content functionName) <> (-1)%Z ->
  (functionStart (boundary content functionName) < i < len (split content))%Z ->
  hasGlabel (lineAt (split content) i) = true ->
  isSizeMarker functionName (lineAt (split content) i) = false ->
  (forall k, (functionStart (boundary content functionName) < k < i)%Z ->
             isStop functionName (lineAt (split content) k) = false) ->
  (functionStart (boundary content functionName) <= j < i)%Z ->
  isReturnMarker (lineAt (split content) j) = true ->
  (forall k, (j < k < i)%Z ->
             isFunctionData (lineAt (split content) k) = false /\
             isReturnMarker (lineAt (split content) k) = false) ->
  functionEnd (boundary content functionName) = j /\
  extractAssemblyFunction content functionName
  = Some (join (slice (split content)
                      (functionStart (boundary content functionName))
                      (j + 1))).
Proof.
  intros Hs Hi Hg Hsz Hbefore Hj Hret Hafter.
  pose proof (boundary_start_range _ _ Hs) as Hr.
  assert (Hstop : isStop functionName (lineAt (split content) i) = true).
  { unfold isStop. rewrite Hg. apply orb_true_r. }
  pose proof (boundary_stop_first _ _ i Hs Hi Hstop Hbefore) as Hfirst.
  pose proof (boundary_end _ _ Hs) as He. cbv zeta in He.
  rewrite Hfirst, Hsz in He.
  destruct (Z.eqb_spec i (-1)); [lia|].
  rewrite (terminatorSearch_return _ _ i j) in He
    by (lia || assumption).
  split; [exact He|].
  rewrite extract_resolved by (assumption || lia).
  now rewrite He.
Qed.

Lemma C4_return_marker_is_end_witness :
  functionEnd
    (boundary (join ["glabel f"; "nop"; "jr $ra"; "nop"; EmptyString; "glabel g"]) "f")
  = 2%Z /\
  extractAssemblyFunction
    (join ["glabel f"; "nop"; "jr $ra"; "nop"; EmptyString; "glabel g"]) "f"
  = Some (join (slice (split (join ["glabel f"; "nop"; "jr $ra"; "nop";
                                    EmptyString; "glabel g"]))
                      (functionStart
                         (boundary (join ["glabel f"; "nop"; "jr $ra"; "nop";
                                          EmptyString; "glabel g"]) "f"))
                      (2 + 1))).
Proof.
  apply (C4_return_marker_is_end
           (join ["glabel f"; "nop"; "jr $ra"; "nop"; EmptyString; "glabel g"])
           "f" 5 2).
  - vm_compute. discriminate.
  - vm_compute. split; reflexivity.
  - reflexivity.
  - reflexivity.
  - intros k Hk. change (0 < k < 5)%Z in Hk.
    assert (E : k = 1%Z \/ k = 2%Z \/ k = 3%Z \/ k = 4%Z) by lia.
    destruct E as [->|[->|[->| ->]]]; reflexivity.
  - vm_compute. split; [discriminate|reflexivity].
  - reflexivity.
  - intros k Hk.
    assert (E : k = 3%Z \/ k = 4%Z) by lia.
    destruct E as [->| ->]; split; reflexivity.
Defined.

(** C5, as stated, fails: line 3 contains [.size f] and lies after the
    start, but the [glabel] line 2 ends the scan first and the resolved end
    is line 1. *)
Lemma C5_glabel_before_size_marker :
  functionStart
    (boundary (join ["glabel f"; "nop"; "glabel g"; ".size f, .-f"]) "f")
  = 0%Z /\
  isSizeMarker "f"
    (lineAt (split (join ["glabel f"; "nop"; "glabel g"; ".size f, .-f"])) 3)
  = true /\
  functionEnd
    (boundary (join ["glabel f"; "nop"; "glabel g"; ".size f, .-f"]) "f")
  = 1%Z /\
  extractAssemblyFunction
    (join ["glabel f"; "nop"; "glabel g"; ".size f, .-f"]) "f"
  = Some (join ["glabel f"; "nop"]).
Proof. repeat split. Qed.

(** C5 (amended): when a line after the resolved start contains
    [.size targetName] and no line between the start and it contains
    [.size targetName] or [glabel], the returned range ends exactly at that
    line. *)
Theorem C5_size_marker_is_end (content functionName : string) (i : Z) :
  functionStart (boundary content functionName) <> (-1)%Z ->
  (functionStart (boundary content functionName) < i < len (split content))%Z ->
  isSizeMarker functionName (lineAt (split content) i) = true ->
  (forall k, (functionStart (boundary content functionName) < k < i)%Z ->
             isSizeMarker functionName (lineAt (split content) k) = false /\
             hasGlabel (lineAt (split content) k) = false) ->
  functionEnd (boundary content functionName) = i /\
  extractAssemblyFunction content functionName
  = Some (join (slice (split content)
                      (functionStart (boundary content functionName))
                      (i + 1))).
Proof.
  intros Hs Hi Hsz Hbefore.
  pose proof (boundary_start_range _ _ Hs) as Hr.
  assert (Hstop : isStop functionName (lineAt (split content) i) = true).
  { unfold isStop. now rewrite Hsz. }
  assert (Hb : forall k,
             (functionStart (boundary content functionName) < k < i)%Z ->
             isStop functionName (lineAt (split content) k) = false).
  { intros k Hk. unfold isStop. apply orb_false_iff. apply Hbefore, Hk. }
  pose proof (boundary_stop_first _ _ i Hs Hi Hstop Hb) as Hfirst.
  pose proof (boundary_end _ _ Hs) as He. cbv zeta in He.
  rewrite Hfirst, Hsz in He.
  destruct (Z.eqb_spec i (-1)); [lia|].
  split; [exact He|].
  rewrite extract_resolved by (assumption || lia).
  now rewrite He.
Qed.

Lemma C5_size_marker_is_end_witness :
  functionEnd (boundary (join ["glabel f"; "nop"; ".size f, .-f"; "x"]) "f")
  = 2%Z /\
  extractAssemblyFunction (join ["glabel f"; "nop"; ".size f, .-f"; "x"]) "f"
  = Some (join (slice (split (join ["glabel f"; "nop"; ".size f, .-f"; "x"]))
                      (functionStart
                         (boundary
                            (join ["glabel f"; "nop"; ".size f, .-f"; "x"])
                            "f"))
                      (2 + 1))).
Proof.
  apply (C5_size_marker_is_end
           (join ["glabel f"; "nop"; ".size f, .-f"; "x"]) "f" 2).
  - vm_compute. discriminate.
  - vm_compute. split; reflexivity.
  - reflexivity.
  - intros k Hk. change (0 < k < 2)%Z in Hk.
    assert (E : k = 1%Z) by lia. subst k. split; reflexivity.
Defined.

(** C9, as stated, fails: in the open state line 2 contains [glabel], but it
    also contains [.size f], so the scan ends on it without the backward
    search, which would have answered line 1. *)
Lemma C9_size_marker_takes_precedence :
  includes "glabel" ".size f # glabel" = true /\
  scanStep ["glabel f"; ".align 3"; ".size f # glabel"] "f" 2
           ".size f # glabel" (mkScan 0 (-1) true)
  = Break (mkScan 0 2 true) /\
  terminatorSearch ["glabel f"; ".align 3"; ".size f # glabel"] 0 2 = 1%Z /\
  functionEnd
    (boundary (join ["glabel f"; ".align 3"; ".size f # glabel"]) "f") = 2%Z.
Proof. repeat split. Qed.

(** C9 (amended): in the open state, every line whose text contains the
    substring [glabel] anywhere and does not contain [.size targetName]
    ends the scan through the backward terminator search; no identifier has
    to follow [glabel]. *)
Theorem C9_any_glabel_substring_ends_function
        (lines : list string) (functionName : string) (i : Z)
        (rawLine : string) (st : scanState) :
  inFunction st = true ->
  includes "glabel" rawLine = true ->
  isSizeMarker functionName rawLine = false ->
  scanStep lines functionName i rawLine st
  = Break (mkScan (functionStart st)
                  (terminatorSearch lines (functionStart st) i) true).
Proof.
  intros Hin Hg Hsz. unfold scanStep. cbv zeta. rewrite Hin. cbn [negb].
  unfold isSizeMarker in Hsz. rewrite Hsz, includes_glabel_trim, Hg.
  reflexivity.
Qed.

Lemma C9_any_glabel_substring_ends_function_witness :
  scanStep ["glabel f"; "nop"; "  # notglabel: x"] "f" 2 "  # notglabel: x"
           (mkScan 0 (-1) true)
  = Break (mkScan (functionStart (mkScan 0 (-1) true))
                  (terminatorSearch ["glabel f"; "nop"; "  # notglabel: x"]
                                    (functionStart (mkScan 0 (-1) true)) 2)
                  true).
Proof.
  apply (C9_any_glabel_substring_ends_function
           ["glabel f"; "nop"; "  # notglabel: x"] "f" 2 "  # notglabel: x"
           (mkScan 0 (-1) true)); reflexivity.
Defined.

(* ================================================================== *)
(** * Properties of the catalog builder *)

(** C6: the line [resize f] has no literal [.size], yet it closes the open
    function [f] and is its last line: the dot of the source's pattern
    stands for any character. *)
Theorem C6_wildcard_dot_closes_function :
  includes ".size" "resize f" = false /\
  sizeMatch "resize f" = Some "f" /\
  listAssemblyFunctions (join ["glabel f"; "resize f"; "nop"])
  = [mkRecord "f" (join ["glabel f"; "resize f"])].
Proof. repeat split. Qed.

(** C10, as stated, fails: line 1 contains [glabel] and does not match
    [glabel <identifier>], but it matches the size pattern for the open
    function: [f] is closed with line 1 included and no function is opened. *)
Lemma C10_size_match_takes_precedence :
  includes "glabel" ".size f glabel" = true /\
  glabelMatch (trim ".size f glabel") = None /\
  listStep ["glabel f"; ".size f glabel"; "nop"] 1 ".size f glabel"
           (mkList (Some ("f", 0%Z)) [])
  = mkList None [mkRecord "f" (join ["glabel f"; ".size f glabel"])] /\
  listAssemblyFunctions (join ["glabel f"; ".size f glabel"; "nop"])
  = [mkRecord "f" (join ["glabel f"; ".size f glabel"])].
Proof. repeat split. Qed.

(** C10 (amended): while a function is open, a line that contains [glabel],
    does not match [glabel <identifier>] and does not match the size
    pattern with the open function's name closes the open function before
    that line and opens a function whose name is the empty string; a
    returned catalog can hold a record with the empty name. *)
Theorem C10_malformed_glabel_opens_unnamed :
  (forall (lines : list string) (i : Z) (rawLine : string) (st : listState)
          (curName : string) (startIndex : Z),
      currentFunction st = Some (curName, startIndex) ->
      includes "glabel" rawLine = true ->
      glabelMatch (trim rawLine) = None ->
      sizeClosesCurrent (trim rawLine) curName = false ->
      listStep lines i rawLine st
      = mkList (Some (EmptyString, i))
               (functions st
                  ++ [mkRecord curName (join (slice lines startIndex i))])%list)
  /\
  listAssemblyFunctions (join ["glabel f"; "glabel"])
  = [mkRecord "f" "glabel f"; mkRecord EmptyString "glabel"].
Proof.
  split; [|reflexivity].
  intros lines i rawLine st curName startIndex Hcur Hg Hm Hsz.
  unfold listStep. cbv zeta. rewrite Hm, Hcur, Hsz, includes_glabel_trim, Hg.
  reflexivity.
Qed.

Lemma C10_malformed_glabel_opens_unnamed_witness :
  listStep ["glabel f"; "nop"; "glabel"] 2 "glabel"
           (mkList (Some ("f", 0%Z)) [])
  = mkList (Some (EmptyString, 2%Z))
           (functions (mkList (Some ("f", 0%Z)) [])
              ++ [mkRecord "f"
                           (join (slice ["glabel f"; "nop"; "glabel"]
                                        0%Z 2%Z))])%list.
Proof.
  apply (proj1 C10_malformed_glabel_opens_unnamed
               ["glabel f"; "nop"; "glabel"] 2%Z "glabel"
               (mkList (Some ("f", 0%Z)) []) "f" 0%Z); reflexivity.
Defined.

(* ================================================================== *)
(** * The matcher *)

Lemma takeN_dropN (k : nat) (s : string) : takeN k s ++ dropN k s = s.
Proof.
  revert s. induction k as [|k IH]; intros s; [reflexivity|].
  destruct s as [|c s]; [reflexivity|]. cbn [takeN dropN append]. now rewrite IH.
Qed.

Lemma takeN_run (p : ascii -> bool) (k : nat) (s : string) :
  (k <= runLength p s)%nat ->
  allChars p (takeN k s) = true /\ String.length (takeN k s) = k.
Proof.
  revert s. induction k as [|k IH]; intros s Hk; [now split|].
  destruct s as [|c s]; cbn [runLength] in Hk; [lia|].
  destruct (p c) eqn:Hc; [|lia].
  destruct (IH s ltac:(lia)) as [H1 H2].
  cbn [takeN allChars String.length]. rewrite Hc, H1, H2. now split.
Qed.

Lemma stripPrefix_sound (p s s' : string) :
  stripPrefix p s = Some s' -> s = p ++ s'.
Proof.
  unfold stripPrefix. destruct (startsWith p s) eqn:E; [|discriminate].
  intros [= <-]. apply startsWith_iff in E as [r ->].
  now rewrite dropN_append.
Qed.

Lemma tryDown_sound {A : Type} (f : nat -> option A) (n min : nat) (r : A) :
  tryDown f n min = Some r ->
  exists k, (min <= k <= n)%nat /\ f k = Some r.
Proof.
  induction n as [|n IH]; cbn [tryDown].
  - destruct (Nat.ltb_spec 0 min); [discriminate|].
    destruct (f 0%nat) eqn:E; [|discriminate].
    intros [= <-]. exists 0%nat. split; [lia|exact E].
  - destruct (Nat.ltb_spec (S n) min); [discriminate|].
    destruct (f (S n)) eqn:E.
    + intros [= <-]. exists (S n). split; [lia|exact E].
    + intros H'. destruct (IH H') as (k & Hk & Hf). exists k. split; [lia|exact Hf].
Qed.

Lemma firstSome_sound {A B : Type} (f : A -> option B) (l : list A) (r : B) :
  firstSome f l = Some r -> exists a, In a l /\ f a = Some r.
Proof.
  induction l as [|a l IH]; cbn [firstSome]; [discriminate|].
  destruct (f a) eqn:E.
  - intros [= <-]. exists a. split; [now left|exact E].
  - intros H. destruct (IH H) as (b & Hb & Hf). exists b. split; [now right|exact Hf].
Qed.

Lemma search_sound (r : regex) (s : string) (m : string * string) :
  search r s = Some m ->
  exists a b, s = a ++ b /\ matchHere r b EmptyString = Some m.
Proof.
  induction s as [|c s IH]; cbn [search].
  - destruct (matchHere r EmptyString EmptyString) eqn:E; [|discriminate].
    intros [= <-]. now exists EmptyString, EmptyString.
  - destruct (matchHere r (String c s) EmptyString) eqn:E.
    + intros [= <-]. now exists EmptyString, (String c s).
    + intros H. destruct (IH H) as (a & b & -> & Hm).
      now exists (String c a), b.
Qed.

(** The tail [=(\w+)] shared by two patterns: an equals sign and a
    non-empty run of word characters, which is the captured group. *)
Lemma matchHere_equals_word (s cap g rest : string) :
  matchHere [Lit "="; Cap 1 isWord] s cap = Some (g, rest) ->
  s = "=" ++ g ++ rest /\ g <> EmptyString /\ allChars isWord g = true.
Proof.
  cbn [matchHere].
  destruct (stripPrefix "=" s) as [s'|] eqn:E; [|discriminate].
  apply stripPrefix_sound in E. intros H.
  apply tryDown_sound in H as (k & Hk & Hm).
  injection Hm as <- <-.
  destruct (takeN_run isWord k s' ltac:(lia)) as [Hall Hlen].
  split; [|split].
  - now rewrite takeN_dropN.
  - intros E'. rewrite E' in Hlen. cbn in Hlen. lia.
  - exact Hall.
Qed.

Lemma directMatch_sound (t n : string) :
  directMatch t = Some n ->
  exists a kw m r,
    t = a ++ kw ++ m ++ "=" ++ n ++ r /\
    In kw ["la"; "add"; "move"] /\
    n <> EmptyString /\ allChars isWord n = true.
Proof.
  unfold directMatch, matchGroup.
  destruct (search reDirect t) as [[g rest]|] eqn:E; [|discriminate].
  intros [= ->].
  apply search_sound in E as (a & b & -> & Hm).
  unfold reDirect in Hm. cbn [matchHere] in Hm.
  apply firstSome_sound in Hm as (kw & Hkw & Hm).
  destruct (stripPrefix kw b) as [b'|] eqn:Eb; [|discriminate].
  apply stripPrefix_sound in Eb. subst b.
  apply tryDown_sound in Hm as (k & _ & Hm).
  apply (matchHere_equals_word _ EmptyString) in Hm as (Hd & Hne & Hall).
  exists a, kw, (takeN k b'), rest. split; [|now repeat split].
  rewrite <- Hd, takeN_dropN. reflexivity.
Qed.

(* ================================================================== *)
(** * Properties of the call reference extractor *)

(** C7, as stated, fails: the instruction of this line is [sll], the line
    does not begin with [la], [add] or [move], and the matcher still yields
    [foo], found after the [la] inside [flag]. *)
Lemma C7_keyword_inside_line :
  startsWith "la" (trim "sll $t0, flag=foo") = false /\
  startsWith "add" (trim "sll $t0, flag=foo") = false /\
  startsWith "move" (trim "sll $t0, flag=foo") = false /\
  directMatch (trim "sll $t0, flag=foo") = Some "foo" /\
  extractFunctionCallsFromAssembly "sll $t0, flag=foo" = ["foo"].
Proof. repeat split. Qed.

(** C7 (amended): the generic matcher yields a name only from a line whose
    trimmed text contains [la], [add] or [move] anywhere, followed later on
    the line by [=] and the name, a non-empty run of word characters; a
    line that contains none of the three adds no name through this
    matcher. *)
Theorem C7_direct_match_needs_keyword :
  (forall line n : string,
      directMatch (trim line) = Some n ->
      exists a kw m r,
        trim line = a ++ kw ++ m ++ "=" ++ n ++ r /\
        In kw ["la"; "add"; "move"] /\
        n <> EmptyString /\ allChars isWord n = true)
  /\
  (forall (line : string) (functionCalls : list string),
      includes "la" (trim line) = false ->
      includes "add" (trim line) = false ->
      includes "move" (trim line) = false ->
      addMatch (directMatch (trim line)) functionCalls = functionCalls).
Proof.
  split.
  - intros line n H. apply directMatch_sound, H.
  - intros line calls Hla Hadd Hmove.
    destruct (directMatch (trim line)) as [n|] eqn:E; [|reflexivity].
    exfalso. apply directMatch_sound in E as (a & kw & m & r & Ht & Hkw & _).
    assert (Hin : includes kw (trim line) = true).
    { apply includes_iff. exists a, (m ++ "=" ++ n ++ r). exact Ht. }
    destruct Hkw as [<-|[<-|[<-|[]]]]; congruence.
Qed.

Lemma C7_direct_match_needs_keyword_witness :
  exists a kw m r,
    trim "  la $t0, =baz" = a ++ kw ++ m ++ "=" ++ "baz" ++ r /\
    In kw ["la"; "add"; "move"] /\
    "baz" <> EmptyString /\ allChars isWord "baz" = true.
Proof.
  apply (proj1 C7_direct_match_needs_keyword "  la $t0, =baz" "baz").
  reflexivity.
Defined.

(* ================================================================== *)
(** * The global replacement *)

(** Any fuel above the length of the text gives the same result: the
    replacement loop always runs to the end of the text. *)
Lemma replaceAllFrom_fuel (r : regex) (rep : string) (f1 f2 : nat) (s : string) :
  (String.length s < f1)%nat -> (String.length s < f2)%nat ->
  replaceAllFrom f1 r rep s = replaceAllFrom f2 r rep s.
Proof.
  revert f2 s. induction f1 as [|f1 IH]; intros f2 s H1 H2; [lia|].
  destruct f2 as [|f2]; [lia|]. cbn [replaceAllFrom].
  destruct (matchHere r s EmptyString) as [[g rest]|].
  - destruct (Nat.ltb_spec (String.length rest) (String.length s)).
    + f_equal. apply IH; lia.
    + destruct s as [|c s]; [reflexivity|]. cbn [String.length] in *.
      do 2 f_equal. apply IH; lia.
  - destruct s as [|c s]; [reflexivity|]. cbn [String.length] in *.
    f_equal. apply IH; lia.
Qed.

Lemma isLF_iff (c : ascii) : isLF c = true <-> c = LF.
Proof.
  unfold isLF, codeUnit, LF. split.
  - intros H. apply Nat.eqb_eq in H. rewrite <- H. symmetry.
    apply ascii_nat_embedding.
  - intros ->. reflexivity.
Qed.

Lemma matchHere_reBlank (s : string) :
  matchHere reBlank s EmptyString =
  if (runLength isLF s <? 3)%nat then None
  else Some (EmptyString, dropN (runLength isLF s) s).
Proof.
  unfold reBlank. cbn [matchHere].
  destruct (runLength isLF s) as [|n]; cbn [tryDown]; [reflexivity|].
  destruct (Nat.ltb_spec (S n) 3); reflexivity.
Qed.

Lemma length_dropN (n : nat) (s : string) :
  String.length (dropN n s) = (String.length s - n)%nat.
Proof.
  revert s. induction n as [|n IH]; intros s; cbn [dropN]; [lia|].
  destruct s as [|c s]; [reflexivity|]. cbn [String.length]. now rewrite IH.
Qed.

Lemma runLength_le_length (p : ascii -> bool) (s : string) :
  (runLength p s <= String.length s)%nat.
Proof.
  induction s as [|c s IH]; cbn [runLength String.length]; [lia|].
  destruct (p c); lia.
Qed.

(** One round of the replacement loop. *)
Lemma replaceAll_unfold (r : regex) (rep s : string) :
  replaceAll r rep s =
  match matchHere r s EmptyString with
  | Some (_, rest) =>
      if (String.length rest <? String.length s)%nat
      then rep ++ replaceAll r rep rest
      else rep ++ match s with
                  | EmptyString => EmptyString
                  | String c s' => String c (replaceAll r rep s')
                  end
  | None =>
      match s with
      | EmptyString => EmptyString
      | String c s' => String c (replaceAll r rep s')
      end
  end.
Proof.
  unfold replaceAll at 1. cbn [replaceAllFrom].
  destruct (matchHere r s EmptyString) as [[g rest]|].
  - destruct (Nat.ltb_spec (String.length rest) (String.length s)).
    + f_equal. unfold replaceAll. apply replaceAllFrom_fuel; lia.
    + destruct s; reflexivity.
  - destruct s; reflexivity.
Qed.

(** The three ways the clean-up proceeds at the head of a text. *)
Lemma cleanUp_empty : cleanUp EmptyString = EmptyString.
Proof. reflexivity. Qed.

Lemma cleanUp_copy (c : ascii) (s : string) :
  (runLength isLF (String c s) < 3)%nat ->
  cleanUp (String c s) = String c (cleanUp s).
Proof.
  intros H. unfold cleanUp.
  etransitivity; [apply replaceAll_unfold|].
  rewrite matchHere_reBlank.
  destruct (Nat.ltb_spec (runLength isLF (String c s)) 3); [|lia].
  reflexivity.
Qed.

Lemma cleanUp_match (s : string) :
  (3 <= runLength isLF s)%nat ->
  cleanUp s = NL ++ NL ++ cleanUp (dropN (runLength isLF s) s).
Proof.
  intros H. unfold cleanUp.
  etransitivity; [apply replaceAll_unfold|].
  rewrite matchHere_reBlank.
  destruct (Nat.ltb_spec (runLength isLF s) 3); [lia|].
  pose proof (length_dropN (runLength isLF s) s) as Hl.
  pose proof (runLength_le_length isLF s) as Hr.
  destruct (Nat.ltb_spec (String.length (dropN (runLength isLF s) s))
                         (String.length s)); [|lia].
  apply append_assoc.
Qed.

Lemma runLength_dropN (p : ascii -> bool) (s : string) :
  runLength p (dropN (runLength p s) s) = 0%nat.
Proof.
  induction s as [|c s IH]; cbn [runLength]; [reflexivity|].
  destruct (p c) eqn:E; cbn [dropN runLength]; [exact IH|now rewrite E].
Qed.

Lemma repeatNL_dropN (s : string) :
  s = repeatNL (runLength isLF s) ++ dropN (runLength isLF s) s.
Proof.
  induction s as [|c s IH]; cbn [runLength]; [reflexivity|].
  destruct (isLF c) eqn:E; [|reflexivity].
  apply isLF_iff in E. subst c. cbn [repeatNL dropN append]. now f_equal.
Qed.

(** A run of line breaks at the head of the text is cut to two at most. *)
Lemma cleanUp_run (s : string) :
  cleanUp s = repeatNL (Nat.min (runLength isLF s) 2)
              ++ cleanUp (dropN (runLength isLF s) s).
Proof.
  destruct (runLength isLF s) as [|[|[|n]]] eqn:E.
  - reflexivity.
  - destruct s as [|c s]; cbn [runLength] in E; [discriminate|].
    destruct (isLF c) eqn:Hc; [|discriminate].
    apply isLF_iff in Hc. subst c.
    rewrite cleanUp_copy by (cbn [runLength]; change (isLF LF) with true; cbv iota; lia).
    reflexivity.
  - destruct s as [|c s]; cbn [runLength] in E; [discriminate|].
    destruct (isLF c) eqn:Hc; [|discriminate].
    apply isLF_iff in Hc. subst c.
    destruct s as [|d s]; cbn [runLength] in E; [discriminate|].
    destruct (isLF d) eqn:Hd; [|discriminate].
    apply isLF_iff in Hd. subst d.
    rewrite cleanUp_copy
      by (cbn [runLength]; change (isLF LF) with true; cbv iota; lia).
    rewrite cleanUp_copy
      by (cbn [runLength]; change (isLF LF) with true; cbv iota; lia).
    reflexivity.
  - rewrite <- E. rewrite cleanUp_match by lia. rewrite E. reflexivity.
Qed.

Lemma cleanUp_head (c : ascii) (s : string) :
  isLF c = false -> cleanUp (String c s) = String c (cleanUp s).
Proof.
  intros H. apply cleanUp_copy. cbn [runLength]. rewrite H. lia.
Qed.

Lemma cleanUp_begins (s : string) :
  runLength isLF s = 0%nat -> runLength isLF (cleanUp s) = 0%nat.
Proof.
  destruct s as [|c s]; [reflexivity|]. cbn [runLength].
  destruct (isLF c) eqn:E; [discriminate|]. intros _.
  rewrite cleanUp_head by exact E. cbn [runLength]. now rewrite E.
Qed.

Lemma string_length_ind (P : string -> Prop) :
  (forall s, (forall t, (String.length t < String.length s)%nat -> P t) -> P s) ->
  forall s, P s.
Proof.
  intros H s.
  assert (G : forall n t, (String.length t < n)%nat -> P t).
  { induction n as [|n IH]; intros t Ht; [lia|].
    apply H. intros u Hu. apply IH. lia. }
  apply (G (S (String.length s))). lia.
Qed.

Lemma eqb_LF_false (c : ascii) : isLF c = false -> Ascii.eqb LF c = false.
Proof.
  intros H. destruct (Ascii.eqb LF c) eqn:E; [|reflexivity].
  apply Ascii.eqb_eq in E. subst c. discriminate.
Qed.

Lemma startsWith_repeatNL_run (k : nat) (y : string) :
  startsWith (repeatNL k) y = true -> (k <= runLength isLF y)%nat.
Proof.
  revert y. induction k as [|k IH]; intros y; [lia|].
  cbn [repeatNL startsWith]. destruct y as [|c y]; [discriminate|].
  intros H. apply andb_true_iff in H as [Hc Hy].
  apply Ascii.eqb_eq in Hc. subst c. cbn [runLength].
  change (isLF LF) with true. cbv iota. specialize (IH _ Hy). lia.
Qed.

Lemma runLength_repeatNL_append (m : nat) (x : string) :
  runLength isLF x = 0%nat -> runLength isLF (repeatNL m ++ x) = m.
Proof.
  intros Hx. induction m as [|m IH]; [exact Hx|].
  cbn [repeatNL append runLength]. change (isLF LF) with true. cbv iota.
  now rewrite IH.
Qed.

Lemma dropN_repeatNL_append (m : nat) (x : string) :
  dropN m (repeatNL m ++ x) = x.
Proof. induction m as [|m IH]; [reflexivity|exact IH]. Qed.

Lemma no_triple_prepend (m : nat) (x : string) :
  (m <= 2)%nat -> runLength isLF x = 0%nat ->
  includes (repeatNL 3) x = false ->
  includes (repeatNL 3) (repeatNL m ++ x) = false.
Proof.
  intros Hm Hx Hinc. induction m as [|m IH]; [exact Hinc|].
  change (repeatNL (S m) ++ x) with (String LF (repeatNL m ++ x)).
  rewrite includes_String.
  rewrite IH by lia. rewrite orb_false_r.
  destruct (startsWith (repeatNL 3) (String LF (repeatNL m ++ x))) eqn:E;
    [|reflexivity].
  apply startsWith_repeatNL_run in E.
  change (String LF (repeatNL m ++ x)) with (repeatNL (S m) ++ x) in E.
  rewrite runLength_repeatNL_append in E by exact Hx. lia.
Qed.

(** No three consecutive line breaks are left. *)
Lemma cleanUp_no_triple (s : string) :
  includes (repeatNL 3) (cleanUp s) = false.
Proof.
  induction s as [s IH] using string_length_ind.
  destruct (runLength isLF s) as [|n] eqn:E.
  - destruct s as [|c s]; [reflexivity|].
    cbn [runLength] in E. destruct (isLF c) eqn:Hc; [discriminate|].
    rewrite cleanUp_head by exact Hc. rewrite includes_String.
    rewrite IH by (cbn [String.length]; lia). rewrite orb_false_r.
    cbn [repeatNL startsWith]. now rewrite eqb_LF_false.
  - rewrite cleanUp_run. apply no_triple_prepend.
    + lia.
    + apply cleanUp_begins, runLength_dropN.
    + apply IH. rewrite length_dropN.
      pose proof (runLength_le_length isLF s). lia.
Qed.

Lemma endsWithLF_append (x y : string) :
  y <> EmptyString -> endsWithLF (x ++ y) = endsWithLF y.
Proof.
  intros Hy. induction x as [|c x IH]; [reflexivity|].
  cbn [append endsWithLF]. rewrite IH.
  destruct (x ++ y) eqn:E; [|reflexivity].
  destruct x; [cbn in E; contradiction|discriminate].
Qed.

Lemma endsWithLF_repeatNL (n : nat) : endsWithLF (repeatNL (S n)) = true.
Proof.
  induction n as [|n IH]; [reflexivity|].
  change (repeatNL (S (S n))) with (String LF (repeatNL (S n))).
  cbn [endsWithLF]. exact IH.
Qed.

(** A text that does not end with a line break is empty or has, after its
    leading line breaks, a character that is no line break. *)
Lemma not_endsWithLF_shape (a : string) :
  endsWithLF a = false ->
  a = EmptyString \/
  exists c a3,
    a = repeatNL (runLength isLF a) ++ String c a3 /\
    isLF c = false /\ endsWithLF (String c a3) = false.
Proof.
  intros H. destruct a as [|d a']; [now left|right].
  set (a := String d a') in *.
  pose proof (repeatNL_dropN a) as Ha.
  destruct (dropN (runLength isLF a) a) as [|c a3] eqn:E.
  - exfalso. rewrite append_nil_r in Ha.
    destruct (runLength isLF a) as [|n]; [discriminate Ha|].
    rewrite Ha, endsWithLF_repeatNL in H. discriminate.
  - exists c, a3. split; [exact Ha|].
    pose proof (runLength_dropN isLF a) as Hr. rewrite E in Hr.
    cbn [runLength] in Hr. destruct (isLF c) eqn:Hc; [discriminate|].
    split; [reflexivity|].
    rewrite Ha in H. rewrite endsWithLF_append in H by discriminate. exact H.
Qed.

Lemma endsWithLF_tail (c : ascii) (a3 : string) :
  isLF c = false -> endsWithLF (String c a3) = endsWithLF a3.
Proof. intros Hc. cbn [endsWithLF]. destruct a3; [exact Hc|reflexivity]. Qed.

Lemma cleanUp_shape (n : nat) (c : ascii) (a3 x : string) :
  isLF c = false ->
  cleanUp (repeatNL n ++ String c a3 ++ x)
  = repeatNL (Nat.min n 2) ++ String c (cleanUp (a3 ++ x)).
Proof.
  intros Hc. rewrite cleanUp_run.
  assert (Hr : runLength isLF (String c a3 ++ x) = 0%nat).
  { cbn [append runLength]. now rewrite Hc. }
  rewrite runLength_repeatNL_append by exact Hr.
  rewrite dropN_repeatNL_append. cbn [append].
  now rewrite cleanUp_head by exact Hc.
Qed.

Lemma cleanUp_shape_end (n : nat) (c : ascii) (a3 : string) :
  isLF c = false ->
  cleanUp (repeatNL n ++ String c a3)
  = repeatNL (Nat.min n 2) ++ String c (cleanUp a3).
Proof.
  intros Hc. pose proof (cleanUp_shape n c a3 EmptyString Hc) as H.
  now rewrite !append_nil_r in H.
Qed.

(** A run of [k] line breaks between a text that does not end with one and
    a text that does not begin with one is cut to [min k 2]; the texts on
    both sides are cleaned on their own. *)
Lemma cleanUp_around_run (a : string) (k : nat) (b : string) :
  endsWithLF a = false -> beginsWithLF b = false ->
  cleanUp (a ++ repeatNL k ++ b)
  = cleanUp a ++ repeatNL (Nat.min k 2) ++ cleanUp b.
Proof.
  intros Ha Hb.
  assert (Hb' : runLength isLF b = 0%nat).
  { destruct b as [|c b]; [reflexivity|]. cbn [runLength].
    destruct (isLF c) eqn:Hc; [|reflexivity].
    apply isLF_iff in Hc. subst c. discriminate Hb. }
  clear Hb. revert Ha. induction a as [a IH] using string_length_ind.
  intros Ha. destruct (not_endsWithLF_shape a Ha) as [->|(c & a3 & E & Hc & He)].
  - cbn [append]. rewrite cleanUp_empty. cbn [append].
    rewrite cleanUp_run, runLength_repeatNL_append by exact Hb'.
    now rewrite dropN_repeatNL_append.
  - remember (runLength isLF a) as n eqn:Hn. clear Hn.
    assert (Hlen : (String.length a3 < String.length a)%nat).
    { rewrite E, length_append. cbn [String.length]. lia. }
    specialize (IH a3 Hlen). clear Hlen. subst a.
    rewrite append_assoc.
    change (String c a3 ++ repeatNL k ++ b)
      with (String c a3 ++ (repeatNL k ++ b)).
    rewrite cleanUp_shape, cleanUp_shape_end by exact Hc.
    rewrite IH.
    + rewrite append_assoc. reflexivity.
    + rewrite <- (endsWithLF_tail c a3 Hc). exact He.
Qed.

Lemma cleanUp_endsWithLF (a : string) :
  endsWithLF a = false -> endsWithLF (cleanUp a) = false.
Proof.
  induction a as [a IH] using string_length_ind. intros Ha.
  destruct (not_endsWithLF_shape a Ha) as [->|(c & a3 & E & Hc & He)];
    [reflexivity|].
  remember (runLength isLF a) as n eqn:Hn. clear Hn.
  assert (Hlen : (String.length a3 < String.length a)%nat).
  { rewrite E, length_append. cbn [String.length]. lia. }
  specialize (IH a3 Hlen). clear Hlen. subst a.
  rewrite cleanUp_shape_end by exact Hc.
  rewrite endsWithLF_append by discriminate.
  rewrite endsWithLF_tail by exact Hc. apply IH.
  rewrite <- (endsWithLF_tail c a3 Hc). exact He.
Qed.

Lemma cleanUp_beginsWithLF (b : string) :
  beginsWithLF b = false -> beginsWithLF (cleanUp b) = false.
Proof.
  intros Hb. destruct b as [|c b]; [reflexivity|].
  destruct (isLF c) eqn:Hc.
  - apply isLF_iff in Hc. subst c. discriminate Hb.
  - rewrite cleanUp_head by exact Hc. unfold beginsWithLF, NL.
    cbn [startsWith]. now rewrite eqb_LF_false.
Qed.

(* ================================================================== *)
(** * Properties of the function editor *)

Lemma remove_unfold (content functionName result : string) :
  removeAssemblyFunction content functionName = Some result ->
  exists functionCode,
    extractAssemblyFunction content functionName = Some functionCode /\
    functionCode <> EmptyString /\
    result = cleanUp (replaceFirst functionCode EmptyString content).
Proof.
  unfold removeAssemblyFunction.
  destruct (extractAssemblyFunction content functionName) as [fc|];
    [|discriminate].
  destruct fc as [|c fc]; [discriminate|]. cbn [isEmpty].
  intros [= <-]. exists (String c fc). repeat split. discriminate.
Qed.

(** C8, as stated, fails for line breaks written CR LF: the function is
    removed from a module whose lines end in CR LF, and the text returned
    still holds three consecutive CR LF line breaks. *)
Lemma C8_crlf_line_breaks_are_kept :
  removeAssemblyFunction
    ("glabel f" ++ CRLF ++ ".size f" ++ CRLF ++ CRLF ++ CRLF ++ CRLF ++ "x")
    "f"
  = Some (NL ++ CRLF ++ CRLF ++ CRLF ++ "x") /\
  includes (CRLF ++ CRLF ++ CRLF) (NL ++ CRLF ++ CRLF ++ CRLF ++ "x") = true.
Proof. split; reflexivity. Qed.

(** C8 (amended): with the line break LF, the only one the clean-up
    looks for, the text returned after a successful removal holds no three
    consecutive line breaks, and every run of three or more LF of the text
    left by the deletion has become exactly two, between the cleaned texts
    before and after the run. *)
Theorem C8_runs_of_line_breaks_collapse
        (content functionName result : string) :
  removeAssemblyFunction content functionName = Some result ->
  includes (NL ++ NL ++ NL) result = false /\
  exists functionCode,
    extractAssemblyFunction content functionName = Some functionCode /\
    forall (a : string) (k : nat) (b : string),
      replaceFirst functionCode EmptyString content = a ++ repeatNL k ++ b ->
      endsWithLF a = false -> beginsWithLF b = false -> (3 <= k)%nat ->
      result = cleanUp a ++ NL ++ NL ++ cleanUp b /\
      endsWithLF (cleanUp a) = false /\ beginsWithLF (cleanUp b) = false.
Proof.
  intros H. apply remove_unfold in H as (fc & Hfc & _ & ->).
  split; [apply cleanUp_no_triple|].
  exists fc. split; [exact Hfc|].
  intros a k b -> Ha Hb Hk.
  rewrite cleanUp_around_run by assumption.
  replace (Nat.min k 2) with 2%nat by lia.
  split; [reflexivity|].
  split; [apply cleanUp_endsWithLF, Ha|apply cleanUp_beginsWithLF, Hb].
Qed.

Lemma C8_runs_of_line_breaks_collapse_witness :
  includes (NL ++ NL ++ NL) (join ["glabel g"; ".size g"; EmptyString; "x"])
  = false /\
  exists functionCode,
    extractAssemblyFunction
      (join ["glabel g"; ".size g"; EmptyString; "glabel f"; "nop"; ".size f";
             EmptyString; EmptyString; "x"]) "f"
    = Some functionCode /\
    forall (a : string) (k : nat) (b : string),
      replaceFirst functionCode EmptyString
        (join ["glabel g"; ".size g"; EmptyString; "glabel f"; "nop";
               ".size f"; EmptyString; EmptyString; "x"])
      = a ++ repeatNL k ++ b ->
      endsWithLF a = false -> beginsWithLF b = false -> (3 <= k)%nat ->
      join ["glabel g"; ".size g"; EmptyString; "x"]
      = cleanUp a ++ NL ++ NL ++ cleanUp b /\
      endsWithLF (cleanUp a) = false /\ beginsWithLF (cleanUp b) = false.
Proof.
  apply (C8_runs_of_line_breaks_collapse
           (join ["glabel g"; ".size g"; EmptyString; "glabel f"; "nop";
                  ".size f"; EmptyString; EmptyString; "x"]) "f").
  reflexivity.
Defined.

(* ================================================================== *)
(** * Lines of a text *)

Lemma split_nonempty (s : string) : split s <> [].
Proof.
  destruct s as [|c s]; cbn [split]; [discriminate|].
  destruct (isLF c); [discriminate|]. destruct (split s); discriminate.
Qed.

Lemma join_cons (l : string) (ls : list string) :
  ls <> [] -> join (l :: ls) = l ++ NL ++ join ls.
Proof. destruct ls; [contradiction|reflexivity]. Qed.

Lemma join_split (s : string) : join (split s) = s.
Proof.
  induction s as [|c s IH]; [reflexivity|]. cbn [split].
  destruct (isLF c) eqn:Hc.
  - apply isLF_iff in Hc. subst c.
    rewrite join_cons by apply split_nonempty. now rewrite IH.
  - pose proof (split_nonempty s) as Hne.
    destruct (split s) as [|l ls]; [contradiction|].
    destruct ls as [|l' ls].
    + cbn [join] in *. now rewrite IH.
    + rewrite join_cons in * by discriminate.
      cbn [append]. now rewrite IH.
Qed.

Lemma split_noLF (s : string) : Forall (fun l => noLF l = true) (split s).
Proof.
  induction s as [|c s IH]; cbn [split].
  - constructor; [reflexivity|constructor].
  - destruct (isLF c) eqn:Hc.
    + constructor; [reflexivity|exact IH].
    + destruct (split s) as [|l ls]; [repeat constructor; cbn; now rewrite Hc|].
      inversion IH as [|? ? Hl Hls]; subst.
      constructor; [|exact Hls].
      unfold noLF in *. cbn [allChars]. now rewrite Hc, Hl.
Qed.

Lemma split_noLF_line (l : string) : noLF l = true -> split l = [l].
Proof.
  unfold noLF. induction l as [|c l IH]; [reflexivity|].
  cbn [allChars split]. intros H. apply andb_true_iff in H as [Hc Hl].
  apply negb_true_iff in Hc. rewrite Hc, IH by exact Hl. reflexivity.
Qed.

Lemma split_append_NL (l rest : string) :
  noLF l = true -> split (l ++ NL ++ rest) = l :: split rest.
Proof.
  unfold noLF. induction l as [|c l IH]; [reflexivity|].
  cbn [allChars append]. intros H. apply andb_true_iff in H as [Hc Hl].
  apply negb_true_iff in Hc. cbn [split]. rewrite Hc, IH by exact Hl.
  reflexivity.
Qed.

Lemma split_join (ls : list string) :
  ls <> [] -> Forall (fun l => noLF l = true) ls -> split (join ls) = ls.
Proof.
  induction ls as [|l ls IH]; [contradiction|]. intros _ Hall.
  inversion Hall as [|? ? Hl Hls]; subst.
  destruct ls as [|l' ls].
  - apply split_noLF_line, Hl.
  - rewrite join_cons by discriminate.
    rewrite split_append_NL by exact Hl.
    now rewrite IH by (discriminate || exact Hls).
Qed.

Lemma join_app (xs ys : list string) :
  xs <> [] -> ys <> [] -> join (xs ++ ys) = join xs ++ NL ++ join ys.
Proof.
  intros Hx Hy. induction xs as [|x xs IH]; [contradiction|].
  destruct xs as [|x' xs].
  - cbn [app]. now rewrite join_cons.
  - change ((x :: x' :: xs) ++ ys)%list with (x :: ((x' :: xs) ++ ys))%list.
    rewrite join_cons by discriminate.
    rewrite IH by discriminate.
    rewrite (join_cons x (x' :: xs)) by discriminate.
    now rewrite !append_assoc.
Qed.

(* ================================================================== *)
(** * The catalog pass *)

Lemma slice_snoc (pre : list string) (l : string) (post : list string)
      (s : Z) :
  (0 <= s <= len pre)%Z ->
  slice (pre ++ l :: post) s (len pre + 1)
  = (slice (pre ++ l :: post) s (len pre) ++ [l])%list.
Proof.
  unfold slice, len. intros Hs.
  rewrite skipn_app.
  replace (Z.to_nat s - List.length pre)%nat with 0%nat by lia.
  cbn [skipn].
  assert (Hl : List.length (skipn (Z.to_nat s) pre)
               = Z.to_nat (Z.of_nat (List.length pre) - s)).
  { rewrite length_skipn. lia. }
  replace (Z.to_nat (Z.of_nat (List.length pre) + 1 - s))
    with (List.length (skipn (Z.to_nat s) pre) + 1)%nat by lia.
  rewrite firstn_app_2. cbn [firstn].
  rewrite <- Hl, firstn_app, firstn_all, Nat.sub_diag. cbn [firstn].
  now rewrite app_nil_r.
Qed.

Lemma slice_single (pre : list string) (l : string) (post : list string) :
  slice (pre ++ l :: post) (len pre) (len pre + 1) = [l].
Proof.
  unfold slice, len. rewrite skipn_app, Nat2Z.id, skipn_all, Nat.sub_diag.
  replace (Z.to_nat (Z.of_nat (List.length pre) + 1 - Z.of_nat (List.length pre)))
    with 1%nat by lia.
  reflexivity.
Qed.

Lemma listStep_catStep (pre : list string) (l : string) (post : list string)
      (st : listState) (cst : catState) :
  catRel (pre ++ l :: post) (len pre) st cst ->
  catRel (pre ++ l :: post) (len pre + 1)
         (listStep (pre ++ l :: post) (len pre) l st) (catStep cst l).
Proof.
  intros [Hf Hc]. unfold listStep, catStep. cbv zeta.
  assert (Hlen : (0 <= len pre)%Z) by (unfold len; lia).
  destruct (glabelMatch (trim l)) as [fn|] eqn:Hg.
  - destruct (currentFunction st) as [[n s]|], (curOpen cst) as [[n' ls]|];
      try contradiction.
    + destruct Hc as (-> & Hs & ->). split; cbn.
      * now rewrite Hf.
      * repeat split; try lia. now rewrite slice_single.
    + split; cbn; [exact Hf|].
      repeat split; try lia. now rewrite slice_single.
  - destruct (currentFunction st) as [[n s]|] eqn:Hcur,
             (curOpen cst) as [[n' ls]|] eqn:Hopen; try contradiction.
    + destruct Hc as (-> & Hs & ->).
      destruct (sizeClosesCurrent (trim l) n').
      * split; cbn; [|exact I]. now rewrite Hf, slice_snoc.
      * destruct (includes "glabel" (trim l)).
        -- split; cbn; [now rewrite Hf|].
           repeat split; try lia. now rewrite slice_single.
        -- split; [exact Hf|]. cbn [curOpen]. rewrite Hcur.
           repeat split; try lia. now rewrite slice_snoc.
    + split; [exact Hf|]. now rewrite Hcur, Hopen.
Qed.

Lemma listLoop_catStep (pre rest post : list string) (st : listState)
      (cst : catState) :
  catRel (pre ++ rest ++ post) (len pre) st cst ->
  catRel (pre ++ rest ++ post) (len pre + len rest)
         (listLoop (pre ++ rest ++ post) rest (len pre) st)
         (fold_left catStep rest cst).
Proof.
  revert pre st cst. induction rest as [|l rest IH]; intros pre st cst H.
  - cbn [listLoop fold_left]. change (len []) with 0%Z.
    now rewrite Z.add_0_r.
  - cbn [listLoop fold_left].
    change (pre ++ (l :: rest) ++ post)%list
      with (pre ++ l :: (rest ++ post))%list in *.
    apply listStep_catStep in H.
    replace (pre ++ l :: (rest ++ post))%list
      with ((pre ++ [l]) ++ rest ++ post)%list in *
      by (now rewrite <- app_assoc).
    replace (len pre + 1)%Z with (len (pre ++ [l])) in *
      by (unfold len; rewrite length_app; cbn; lia).
    replace (len pre + len (l :: rest))%Z with (len (pre ++ [l]) + len rest)%Z
      by (unfold len; rewrite length_app; cbn [List.length]; lia).
    apply IH. exact H.
Qed.

Lemma catRel_init (lines : list string) :
  catRel lines 0 (mkList None []) catInit.
Proof. split; [reflexivity|exact I]. Qed.

(** [listAssemblyFunctions] is the catalog of the lines of the text. *)
Lemma listAssemblyFunctions_catalogLines (content : string) :
  listAssemblyFunctions content = catalogLines (split content).
Proof.
  unfold listAssemblyFunctions, catalogLines. cbv zeta.
  pose proof (listLoop_catStep [] (split content) [] (mkList None []) catInit)
    as H.
  cbn [app] in H. rewrite app_nil_r in H.
  specialize (H (catRel_init _)).
  change (len []) with 0%Z in H. rewrite Z.add_0_l in H.
  destruct H as [Hf Hc]. unfold listFinish, catFinish.
  destruct (currentFunction (listLoop (split content) (split content) 0
                                      (mkList None []))) as [[n s]|],
           (curOpen (fold_left catStep (split content) catInit))
             as [[n' ls]|]; try contradiction.
  - destruct Hc as (-> & Hs & ->). rewrite Hf. do 3 f_equal.
    unfold sliceFrom, slice, len.
    rewrite firstn_all2; [reflexivity|]. rewrite length_skipn. lia.
  - exact Hf.
Qed.

(** The state of the source loop after a prefix [P] of the lines has no
    open function exactly when the carried state has none. *)
Lemma listLoop_prefix_closed (P rest : list string) :
  currentFunction (listLoop (P ++ rest) P 0 (mkList None [])) = None ->
  curOpen (fold_left catStep P catInit) = None.
Proof.
  intros H.
  pose proof (listLoop_catStep [] P rest (mkList None []) catInit) as R.
  cbn [app] in R. specialize (R (catRel_init _)).
  change (len []) with 0%Z in R. destruct R as [_ Hc].
  rewrite H in Hc.
  destruct (curOpen (fold_left catStep P catInit)) as [[n ls]|];
    [contradiction|reflexivity].
Qed.

Lemma catState_eta (st : catState) : st = mkCat (curOpen st) (emitted st).
Proof. now destruct st. Qed.

(** What has been emitted is never read again: a pass started with more
    records emitted ends with the same records in front. *)
Lemma catStep_acc (acc : list FunctionRecord) (st : catState) (l : string) :
  catStep (mkCat (curOpen st) (acc ++ emitted st)) l
  = mkCat (curOpen (catStep st l)) (acc ++ emitted (catStep st l)).
Proof.
  unfold catStep. cbv zeta. cbn [curOpen emitted].
  destruct (glabelMatch (trim l)).
  - destruct (curOpen st) as [[n ls]|]; cbn [curOpen emitted];
      now rewrite ?app_assoc.
  - destruct (curOpen st) as [[n ls]|] eqn:E.
    + destruct (sizeClosesCurrent (trim l) n); cbn [curOpen emitted];
        [now rewrite app_assoc|].
      destruct (includes "glabel" (trim l)); cbn [curOpen emitted];
        now rewrite ?app_assoc.
    + now rewrite E.
Qed.

Lemma catFold_acc (acc : list FunctionRecord) (ls : list string)
      (st : catState) :
  fold_left catStep ls (mkCat (curOpen st) (acc ++ emitted st))
  = mkCat (curOpen (fold_left catStep ls st))
          (acc ++ emitted (fold_left catStep ls st)).
Proof.
  revert st. induction ls as [|l ls IH]; intros st; [reflexivity|].
  cbn [fold_left]. rewrite catStep_acc. apply IH.
Qed.

Lemma catalogLines_app_closed (A C : list string) :
  curOpen (fold_left catStep A catInit) = None ->
  catalogLines (A ++ C)
  = (emitted (fold_left catStep A catInit) ++ catalogLines C)%list.
Proof.
  intros H. unfold catalogLines. rewrite fold_left_app.
  rewrite (catState_eta (fold_left catStep A catInit)), H.
  cbn [curOpen emitted].
  pose proof (catFold_acc (emitted (fold_left catStep A catInit)) C catInit)
    as Hacc.
  cbn [curOpen emitted catInit] in Hacc. rewrite app_nil_r in Hacc.
  rewrite Hacc. unfold catFinish. cbn [curOpen emitted].
  destruct (curOpen (fold_left catStep C catInit)) as [[n ls]|];
    [now rewrite app_assoc|reflexivity].
Qed.




(** ** The start pattern *)

Lemma matchHere_space_word (s cap g rest : string) :
  matchHere [Rep 1 isSpace; Cap 1 isWord] s cap = Some (g, rest) ->
  g <> EmptyString /\ allChars isWord g = true.
Proof.
  cbn [matchHere]. intros H.
  apply tryDown_sound in H as (k & _ & H).
  apply tryDown_sound in H as (k' & Hk' & H).
  injection H as <- <-.
  destruct (takeN_run isWord k' (dropN k s) ltac:(lia)) as [Hall Hlen].
  split; [|exact Hall].
  intros E. rewrite E in Hlen. cbn in Hlen. lia.
Qed.

Lemma glabelMatch_sound (t n : string) :
  glabelMatch t = Some n ->
  includes "glabel" t = true /\ n <> EmptyString /\ allChars isWord n = true.
Proof.
  unfold glabelMatch, matchGroup.
  destruct (search reGlabel t) as [[g rest]|] eqn:E; [|discriminate].
  intros [= ->]. apply search_sound in E as (a & b & -> & Hm).
  unfold reGlabel in Hm. cbn [matchHere] in Hm.
  destruct (stripPrefix "glabel" b) as [b'|] eqn:Eb; [|discriminate].
  apply stripPrefix_sound in Eb. subst b.
  split.
  - apply includes_iff. now exists a, b'.
  - change (tryDown _ _ _) with
      (matchHere [Rep 1 isSpace; Cap 1 isWord] b' EmptyString) in Hm.
    apply matchHere_space_word in Hm. exact Hm.
Qed.

Lemma glabelMatch_none (t : string) :
  includes "glabel" t = false -> glabelMatch t = None.
Proof.
  intros H. destruct (glabelMatch t) as [n|] eqn:E; [|reflexivity].
  apply glabelMatch_sound in E as [E _]. congruence.
Qed.

(** ** A function block in the catalog pass *)

Lemma catFold_body (F : string) (B ls : list string)
      (acc : list FunctionRecord) :
  Forall (fun l => hasGlabel l = false /\
                   sizeClosesCurrent (trim l) F = false) B ->
  fold_left catStep B (mkCat (Some (F, ls)) acc)
  = mkCat (Some (F, (ls ++ B)%list)) acc.
Proof.
  revert ls. induction B as [|l B IH]; intros ls H.
  - now rewrite app_nil_r.
  - inversion H as [|? ? [Hg Hs] HB]; subst. cbn [fold_left].
    unfold catStep at 2. cbv zeta. unfold hasGlabel in Hg.
    rewrite (glabelMatch_none _ Hg). cbn [curOpen emitted].
    rewrite Hs, Hg. rewrite IH by exact HB.
    now rewrite <- app_assoc.
Qed.

Lemma catFold_block (F h z : string) (B : list string) (st : catState) :
  curOpen st = None ->
  glabelMatch (trim h) = Some F ->
  Forall (fun l => hasGlabel l = false /\
                   sizeClosesCurrent (trim l) F = false) B ->
  glabelMatch (trim z) = None ->
  sizeClosesCurrent (trim z) F = true ->
  fold_left catStep (h :: B ++ [z]) st
  = mkCat None (emitted st ++ [mkRecord F (join (h :: B ++ [z]))])%list.
Proof.
  intros Hst Hh HB Hz1 Hz2. cbn [fold_left]. rewrite fold_left_app.
  unfold catStep at 3. cbv zeta. rewrite Hh, Hst.
  rewrite catFold_body by exact HB. cbn [fold_left].
  unfold catStep. cbv zeta. rewrite Hz1. cbn [curOpen emitted].
  rewrite Hz2. now rewrite <- app_assoc.
Qed.

(* ================================================================== *)
(** * The resolver on a delimited block *)

Lemma findFrom_app_first (p : string -> bool) (pre : list string) (l : string)
      (post : list string) (i : Z) :
  Forall (fun x => p x = false) pre -> p l = true ->
  findFrom p (pre ++ l :: post) i = (i + len pre)%Z.
Proof.
  unfold len. revert i. induction pre as [|x pre IH]; intros i Hpre Hl.
  - cbn. rewrite Hl. lia.
  - inversion Hpre as [|? ? Hx Hpre']; subst.
    cbn [app findFrom]. rewrite Hx, IH by assumption.
    cbn [List.length]. lia.
Qed.

Lemma skipn_past (P : list string) (h : string) (rest : list string) :
  skipn (Z.to_nat (len P + 1)) (P ++ h :: rest) = rest.
Proof.
  unfold len. replace (Z.to_nat (Z.of_nat (List.length P) + 1))
    with (List.length P + 1)%nat by lia.
  rewrite skipn_app, skipn_all2 by lia.
  replace (List.length P + 1 - List.length P)%nat with 1%nat by lia.
  reflexivity.
Qed.

Lemma slice_block (P : list string) (h : string) (B : list string)
      (z : string) (Q : list string) :
  slice (P ++ h :: B ++ z :: Q) (len P) (len P + 1 + len B + 1)
  = (h :: B ++ [z])%list.
Proof.
  unfold slice, len. rewrite Nat2Z.id, skipn_app, skipn_all, Nat.sub_diag.
  cbn [app skipn].
  replace (Z.to_nat (Z.of_nat (List.length P) + 1 + Z.of_nat (List.length B) + 1
                     - Z.of_nat (List.length P)))
    with (S (List.length B + 1))%nat by lia.
  cbn [firstn]. f_equal.
  rewrite firstn_app, firstn_all2 by lia.
  replace (List.length B + 1 - List.length B)%nat with 1%nat by lia.
  reflexivity.
Qed.

Lemma lineAt_app (P : list string) (l : string) (rest : list string) :
  lineAt (P ++ l :: rest) (len P) = l.
Proof.
  unfold lineAt, len. rewrite Nat2Z.id, app_nth2, Nat.sub_diag by lia.
  reflexivity.
Qed.

(** A block that begins with a start line of [F], the first one of the
    text, and ends with the first later line that holds [.size F], with no
    [glabel] line between, is what the resolver returns for [F]. *)
Lemma extract_block (content F : string) (P : list string) (h : string)
      (B : list string) (z : string) (Q : list string) :
  split content = (P ++ h :: B ++ z :: Q)%list ->
  Forall (fun l => isStart F l = false) P ->
  isStart F h = true ->
  Forall (fun l => isStop F l = false) B ->
  isSizeMarker F z = true ->
  extractAssemblyFunction content F = Some (join (h :: B ++ [z])).
Proof.
  intros Hsplit HP Hh HB Hz.
  assert (Hs : functionStart (boundary content F) = len P).
  { rewrite boundary_start, Hsplit, findFrom_app_first by assumption. lia. }
  assert (Hne : functionStart (boundary content F) <> (-1)%Z).
  { rewrite Hs. unfold len. lia. }
  assert (He : functionEnd (boundary content F) = (len P + 1 + len B)%Z).
  { rewrite boundary_end by exact Hne. cbv zeta. rewrite Hs, Hsplit.
    rewrite skipn_past.
    rewrite findFrom_app_first
      by (assumption || (unfold isStop; now rewrite Hz)).
    destruct (Z.eqb_spec (len P + 1 + len B) (-1)); [unfold len in *; lia|].
    replace (P ++ h :: B ++ z :: Q)%list
      with ((P ++ h :: B) ++ z :: Q)%list
      by (now rewrite <- app_assoc).
    replace (len P + 1 + len B)%Z with (len (P ++ h :: B))
      by (unfold len; rewrite length_app; cbn [List.length]; lia).
    now rewrite lineAt_app, Hz. }
  rewrite extract_resolved by (assumption || (rewrite Hs, He; unfold len; lia)).
  rewrite Hs, He, Hsplit, slice_block. reflexivity.
Qed.

(* ================================================================== *)
(** * Deleting a block from the text *)


Lemma join_before (P M : list string) :
  M <> [] -> join (P ++ M) = textBefore P ++ join M.
Proof.
  intros HM. destruct P as [|l P]; [reflexivity|].
  unfold textBefore. rewrite join_app by (discriminate || exact HM).
  now rewrite !append_assoc.
Qed.

Lemma join_after (M Q : list string) :
  M <> [] -> join (M ++ Q) = join M ++ textAfter Q.
Proof.
  intros HM. destruct Q as [|l Q].
  - cbn [textAfter]. now rewrite app_nil_r, append_nil_r.
  - unfold textAfter. now rewrite join_app by (discriminate || exact HM).
Qed.

Lemma join_around (P M Q : list string) :
  M <> [] -> join (P ++ M ++ Q) = textBefore P ++ join M ++ textAfter Q.
Proof.
  intros HM. rewrite join_before.
  - now rewrite join_after.
  - destruct M; [contradiction|discriminate].
Qed.




Lemma noLF_append (x y : string) : noLF (x ++ y) = noLF x && noLF y.
Proof.
  unfold noLF. induction x as [|c x IH]; [reflexivity|].
  cbn [append allChars]. now rewrite IH, andb_assoc.
Qed.

Lemma replaceFirst_here (pat rep s : string) :
  startsWith pat s = true ->
  replaceFirst pat rep s = rep ++ dropN (String.length pat) s.
Proof. intros H. destruct s; cbn [replaceFirst]; now rewrite H. Qed.

Lemma replaceFirst_skip (pat rep : string) (c : ascii) (s : string) :
  startsWith pat (String c s) = false ->
  replaceFirst pat rep (String c s) = String c (replaceFirst pat rep s).
Proof. intros H. cbn [replaceFirst]. now rewrite H. Qed.


Lemma isWord_not_space (c : ascii) : isWord c = true -> isSpace c = false.
Proof.
  destruct c as [[] [] [] [] [] [] [] []]; vm_compute; congruence.
Qed.



(* ================================================================== *)
(** * The clean-up seen on lines *)

Lemma repeatNL_add (a b : nat) :
  repeatNL (a + b) = repeatNL a ++ repeatNL b.
Proof. induction a as [|a IH]; [reflexivity|]. cbn. now rewrite IH. Qed.





Lemma includes_part (p a t b : string) :
  includes p (a ++ t ++ b) = false -> includes p t = false.
Proof.
  intros H. destruct (includes p t) eqn:E; [|reflexivity].
  apply includes_iff in E as (x & y & ->).
  assert (H' : includes p (a ++ (x ++ p ++ y) ++ b) = true).
  { apply includes_iff. exists (a ++ x), (y ++ b). now rewrite !append_assoc. }
  congruence.
Qed.

(** A text without three consecutive line breaks is left as it is. *)
Lemma cleanUp_fixed (s : string) :
  includes (repeatNL 3) s = false -> cleanUp s = s.
Proof.
  induction s as [s IH] using string_length_ind. intros H.
  destruct s as [|c s]; [reflexivity|].
  assert (Hrun : (runLength isLF (String c s) < 3)%nat).
  { destruct (Nat.ltb_spec (runLength isLF (String c s)) 3) as [Hlt|Hge];
      [exact Hlt|exfalso].
    pose proof (repeatNL_dropN (String c s)) as E.
    replace (runLength isLF (String c s))
      with (3 + (runLength isLF (String c s) - 3))%nat in E at 1 by lia.
    rewrite repeatNL_add, append_assoc in E.
    assert (Hin : includes (repeatNL 3) (String c s) = true).
    { apply includes_iff. exists EmptyString. eexists. exact E. }
    congruence. }
  rewrite cleanUp_copy by exact Hrun. f_equal. apply IH.
  - cbn [String.length]. lia.
  - rewrite includes_String in H. now apply orb_false_iff in H.
Qed.

(* ================================================================== *)
(** * Removing a delimited function *)

Section Removal.
Variables (content F : string) (P : list string) (h : string)
          (B : list string) (z : string) (Q : list string).

Hypothesis Hsplit : split content = (P ++ h :: B ++ z :: Q)%list.
Hypothesis Hbefore : Forall (fun l => isStart F l = false) P.
Hypothesis Hname : glabelMatch (trim h) = Some F.
Hypothesis Hmarker : isStartMarker F h = true.
Hypothesis Hbody :
  Forall (fun l => isStop F l = false /\
                   sizeClosesCurrent (trim l) F = false) B.
Hypothesis Hsize : isSizeMarker F z = true.
Hypothesis Hcloses : sizeClosesCurrent (trim z) F = true.
Hypothesis Hnostart : glabelMatch (trim z) = None.

Lemma removal_extract :
  extractAssemblyFunction content F = Some (join (h :: B ++ [z])).
Proof.
  apply (extract_block content F P h B z Q Hsplit Hbefore).
  - unfold isStart. now rewrite Hmarker.
  - eapply Forall_impl; [|exact Hbody]. now intros l [H _].
  - exact Hsize.
Qed.

Lemma removal_body_catalog :
  Forall (fun l => hasGlabel l = false /\
                   sizeClosesCurrent (trim l) F = false) B.
Proof.
  eapply Forall_impl; [|exact Hbody]. intros l [H1 H2].
  unfold isStop in H1. apply orb_false_iff in H1 as [_ H1]. now split.
Qed.

Hypothesis Hclosed :
  currentFunction (listLoop (split content) P 0 (mkList None [])) = None.

Lemma removal_closed_before : curOpen (fold_left catStep P catInit) = None.
Proof. rewrite Hsplit in Hclosed. exact (listLoop_prefix_closed _ _ Hclosed). Qed.

(** The original catalog: the records before the block, the record of
    [F], the records after the block. *)
Lemma removal_catalog_before :
  listAssemblyFunctions content
  = (emitted (fold_left catStep P catInit)
       ++ mkRecord F (join (h :: B ++ [z])) :: catalogLines Q)%list.
Proof.
  rewrite listAssemblyFunctions_catalogLines, Hsplit.
  replace (P ++ h :: B ++ z :: Q)%list with ((P ++ h :: B ++ [z]) ++ Q)%list
    by (rewrite <- !app_assoc; cbn [app]; now rewrite <- app_assoc).
  assert (Hfold : fold_left catStep (P ++ h :: B ++ [z]) catInit
                  = mkCat None (emitted (fold_left catStep P catInit)
                                  ++ [mkRecord F (join (h :: B ++ [z]))])%list).
  { rewrite fold_left_app.
    apply catFold_block;
      auto using removal_closed_before, removal_body_catalog. }
  rewrite catalogLines_app_closed by (now rewrite Hfold).
  rewrite Hfold. cbn [emitted]. now rewrite <- app_assoc.
Qed.

End Removal.



(* ================================================================== *)
(** * Further properties of the boundary resolver *)

Lemma includes_nonempty (p t : string) :
  p <> EmptyString -> includes p t = true -> t <> EmptyString.
Proof.
  intros Hp H ->. cbn in H. rewrite orb_false_r in H.
  destruct p; [contradiction|discriminate].
Qed.

Lemma trim_nonempty (l : string) : trim l <> EmptyString -> l <> EmptyString.
Proof. intros H ->. now apply H. Qed.

Lemma isStart_nonempty (functionName l : string) :
  isStart functionName l = true -> l <> EmptyString.
Proof.
  unfold isStart, isStartMarker, isBareLabel. intros H.
  apply trim_nonempty. apply orb_true_iff in H as [H|H].
  - apply (includes_nonempty ("glabel " ++ functionName)); [discriminate|exact H].
  - apply startsWith_iff in H as [r ->].
    destruct functionName; discriminate.
Qed.

Lemma join_head_nonempty (l : string) (ls : list string) :
  l <> EmptyString -> join (l :: ls) <> EmptyString.
Proof.
  intros Hl. destruct ls as [|l' ls]; [exact Hl|].
  rewrite join_cons by discriminate. destruct l; [contradiction|discriminate].
Qed.

Lemma firstn_skipn_head (k n : nat) (lines : list string) :
  (k < List.length lines)%nat ->
  firstn (S n) (skipn k lines)
  = nth k lines EmptyString :: firstn n (skipn (S k) lines).
Proof.
  revert lines. induction k as [|k IH]; intros lines Hlt.
  - destruct lines; [cbn in Hlt; lia|reflexivity].
  - destruct lines as [|x lines]; [cbn in Hlt; lia|].
    cbn [List.length] in Hlt. cbn [skipn nth]. apply IH. lia.
Qed.

(** A slice inside the array, as the three parts of the array. *)
Lemma slice_parts (lines : list string) (s e : Z) :
  (0 <= s <= e)%Z -> (e < len lines)%Z ->
  lines = (firstn (Z.to_nat s) lines ++ slice lines s (e + 1)
             ++ skipn (Z.to_nat (e + 1)) lines)%list /\
  slice lines s (e + 1) = lineAt lines s :: slice lines (s + 1) (e + 1).
Proof.
  unfold len, slice, lineAt. intros Hs He. split.
  - rewrite <- (firstn_skipn (Z.to_nat s) lines) at 1. f_equal.
    rewrite <- (firstn_skipn (Z.to_nat (e + 1 - s))
                             (skipn (Z.to_nat s) lines)) at 1.
    f_equal. rewrite skipn_skipn. f_equal. lia.
  - replace (Z.to_nat (e + 1 - s)) with (S (Z.to_nat (e + 1 - (s + 1)))) by lia.
    replace (Z.to_nat (s + 1)) with (S (Z.to_nat s)) by lia.
    apply firstn_skipn_head. lia.
Qed.

Lemma boundary_end_range (content functionName : string) :
  functionStart (boundary content functionName) <> (-1)%Z ->
  functionEnd (boundary content functionName) <> (-1)%Z ->
  (functionStart (boundary content functionName)
   <= functionEnd (boundary content functionName) < len (split content))%Z.
Proof.
  intros Hs He. pose proof (boundary_start_range _ _ Hs) as Hr.
  pose proof (boundary_end _ _ Hs) as E. cbv zeta in E.
  set (s := functionStart (boundary content functionName)) in *.
  pose proof (findFrom_range (isStop functionName)
                (skipn (Z.to_nat (s + 1)) (split content)) (s + 1)
                ltac:(lia)) as Hq.
  rewrite len_skipn in Hq by lia.
  set (i := findFrom (isStop functionName)
                     (skipn (Z.to_nat (s + 1)) (split content)) (s + 1)) in *.
  destruct (Z.eqb_spec i (-1)) as [Ei|Ei]; [congruence|].
  destruct Hq as [Hq|Hq]; [contradiction|].
  rewrite E. destruct (isSizeMarker functionName (lineAt (split content) i)).
  - lia.
  - pose proof (terminatorSearch_range (split content) s i ltac:(lia)). lia.
Qed.

Lemma extract_some (content functionName code : string) :
  extractAssemblyFunction content functionName = Some code ->
  functionStart (boundary content functionName) <> (-1)%Z /\
  functionEnd (boundary content functionName) <> (-1)%Z /\
  code = join (slice (split content)
                     (functionStart (boundary content functionName))
                     (functionEnd (boundary content functionName) + 1)).
Proof.
  unfold extractAssemblyFunction. cbv zeta.
  fold (boundary content functionName).
  destruct (Z.eqb_spec (functionStart (boundary content functionName)) (-1));
    [discriminate|].
  destruct (Z.eqb_spec (functionEnd (boundary content functionName)) (-1));
    [discriminate|].
  cbn [negb andb].
  destruct (functionEnd (boundary content functionName)
            >=? functionStart (boundary content functionName))%Z;
    [|discriminate].
  intros [= <-]. now repeat split.
Qed.

Lemma boundary_start_line (content functionName : string) :
  functionStart (boundary content functionName) <> (-1)%Z ->
  isStart functionName
          (lineAt (split content)
                  (functionStart (boundary content functionName))) = true.
Proof.
  rewrite boundary_start. intros Hs.
  destruct (findFrom_hit (isStart functionName) (split content) 0 _
                         ltac:(lia) eq_refl Hs) as [H _].
  now rewrite Z.sub_0_r in H.
Qed.

Lemma boundary_no_start (content functionName : string) :
  (forall i, (0 <= i < len (split content))%Z ->
             isStart functionName (lineAt (split content) i) = false) ->
  functionStart (boundary content functionName) = (-1)%Z.
Proof.
  intros H.
  destruct (Z.eq_dec (functionStart (boundary content functionName)) (-1))
    as [E|E]; [exact E|exfalso].
  pose proof (boundary_start_range _ _ E) as Hr.
  pose proof (boundary_start_line _ _ E) as Hl.
  rewrite H in Hl by exact Hr. discriminate.
Qed.

(** X1: when no line of the text is a start line for the name (neither a
    [glabel name] line nor a [name:] line), the resolver returns null and
    the removal reports the function as not found. *)
Theorem X1_not_found_without_start_line (content functionName : string) :
  (forall i, (0 <= i < len (split content))%Z ->
             isStart functionName (lineAt (split content) i) = false) ->
  extractAssemblyFunction content functionName = None /\
  removeAssemblyFunction content functionName = None.
Proof.
  intros H. apply boundary_no_start in H.
  assert (E : extractAssemblyFunction content functionName = None).
  { unfold extractAssemblyFunction. cbv zeta.
    fold (boundary content functionName). now rewrite H. }
  split; [exact E|]. unfold removeAssemblyFunction. now rewrite E.
Qed.

Lemma X1_not_found_without_start_line_witness :
  extractAssemblyFunction (join ["glabel g"; "nop"; ".size g"]) "missing"
  = None /\
  removeAssemblyFunction (join ["glabel g"; "nop"; ".size g"]) "missing"
  = None.
Proof.
  apply (X1_not_found_without_start_line
           (join ["glabel g"; "nop"; ".size g"]) "missing").
  intros i Hi. change (0 <= i < 3)%Z in Hi.
  assert (E : i = 0%Z \/ i = 1%Z \/ i = 2%Z) by lia.
  destruct E as [->|[->| ->]]; reflexivity.
Defined.

(** What the resolver returns: a run of consecutive lines. *)
Lemma extract_run_of_lines (content functionName code : string) :
  extractAssemblyFunction content functionName = Some code ->
  exists s e,
    (0 <= s <= e)%Z /\ (e < len (split content))%Z /\
    isStart functionName (lineAt (split content) s) = true /\
    code = join (slice (split content) s (e + 1)) /\
    code <> EmptyString /\
    includes code content = true.
Proof.
  intros H. apply extract_some in H as (Hs & He & ->).
  pose proof (boundary_start_range _ _ Hs) as Hr.
  pose proof (boundary_end_range _ _ Hs He) as Hre.
  pose proof (boundary_start_line _ _ Hs) as Hl.
  set (s := functionStart (boundary content functionName)) in *.
  set (e := functionEnd (boundary content functionName)) in *.
  exists s, e.
  destruct (slice_parts (split content) s e ltac:(lia) ltac:(lia))
    as [Hparts Hhead].
  repeat split; try lia; try exact Hl.
  - rewrite Hhead. apply join_head_nonempty.
    apply (isStart_nonempty functionName), Hl.
  - apply includes_iff.
    exists (textBefore (firstn (Z.to_nat s) (split content))),
           (textAfter (skipn (Z.to_nat (e + 1)) (split content))).
    rewrite <- join_around by (rewrite Hhead; discriminate).
    rewrite <- Hparts. symmetry. apply join_split.
Qed.

(** X2: whatever the resolver returns is the text of a run of consecutive
    lines of the module that begins with a start line for the name; it is
    never empty and it occurs in the module text. *)
Theorem X2_extracted_code_is_run_of_lines (content functionName code : string) :
  extractAssemblyFunction content functionName = Some code ->
  exists s e,
    (0 <= s <= e)%Z /\ (e < len (split content))%Z /\
    isStart functionName (lineAt (split content) s) = true /\
    code = join (slice (split content) s (e + 1)) /\
    code <> EmptyString /\
    includes code content = true.
Proof. apply extract_run_of_lines. Qed.

Lemma X2_extracted_code_is_run_of_lines_witness :
  exists s e,
    (0 <= s <= e)%Z /\
    (e < len (split (join ["x"; "glabel f"; "nop"; ".size f"; "y"])))%Z /\
    isStart "f" (lineAt (split (join ["x"; "glabel f"; "nop"; ".size f"; "y"]))
                        s) = true /\
    join ["glabel f"; "nop"; ".size f"]
    = join (slice (split (join ["x"; "glabel f"; "nop"; ".size f"; "y"]))
                  s (e + 1)) /\
    join ["glabel f"; "nop"; ".size f"] <> EmptyString /\
    includes (join ["glabel f"; "nop"; ".size f"])
             (join ["x"; "glabel f"; "nop"; ".size f"; "y"]) = true.
Proof.
  apply (X2_extracted_code_is_run_of_lines
           (join ["x"; "glabel f"; "nop"; ".size f"; "y"]) "f").
  reflexivity.
Defined.

(** X3: the removal fails exactly when the resolver finds no function: the
    guard on an empty extracted text never rejects a function that was
    found. *)
Theorem X3_removal_fails_iff_not_found (content functionName : string) :
  removeAssemblyFunction content functionName = None <->
  extractAssemblyFunction content functionName = None.
Proof.
  unfold removeAssemblyFunction.
  destruct (extractAssemblyFunction content functionName) as [code|] eqn:E;
    [|now split].
  apply extract_run_of_lines in E as (s & e & _ & _ & _ & _ & Hne & _).
  destruct code; [contradiction|]. cbn [isEmpty]. split; discriminate.
Qed.

(* ================================================================== *)
(** * Further properties of the function editor *)

Lemma replaceFirst_first_occurrence (pat rep s : string) :
  includes pat s = true ->
  exists pre post,
    s = pre ++ pat ++ post /\
    replaceFirst pat rep s = pre ++ rep ++ post /\
    forall u v, pre = u ++ v -> v <> EmptyString ->
                startsWith pat (v ++ pat ++ post) = false.
Proof.
  induction s as [|c s IH]; intros H.
  - cbn in H. rewrite orb_false_r in H.
    apply startsWith_iff in H as [r Hr].
    destruct pat; [|discriminate]. cbn [append] in Hr. subst r.
    exists EmptyString, EmptyString. repeat split.
    intros u v Huv Hv. destruct u; cbn [append] in Huv; congruence.
  - destruct (startsWith pat (String c s)) eqn:E.
    + pose proof E as E'. apply startsWith_iff in E' as [r Hr].
      exists EmptyString, r. split; [exact Hr|]. split.
      * rewrite replaceFirst_here by exact E. now rewrite Hr, dropN_append.
      * intros u v Huv Hv. destruct u; cbn [append] in Huv; congruence.
    + rewrite includes_String, E in H. cbn [orb] in H.
      destruct (IH H) as (pre & post & Hs & Hrep & Hfirst).
      exists (String c pre), post. split; [now rewrite Hs|]. split.
      * rewrite replaceFirst_skip by exact E. now rewrite Hrep.
      * intros u v Huv Hv. destruct u as [|d u].
        -- cbn [append] in Huv. subst v. cbn [append]. now rewrite <- Hs.
        -- cbn [append] in Huv. injection Huv as _ Huv.
           now apply (Hfirst u v).
Qed.


(** The clean-up never makes a text longer. *)
Lemma cleanUp_length_le (s : string) :
  (String.length (cleanUp s) <= String.length s)%nat.
Proof.
  induction s as [s IH] using string_length_ind.
  destruct s as [|c s]; [cbn; lia|].
  destruct (Nat.ltb_spec (runLength isLF (String c s)) 3) as [Hlt|Hge].
  - rewrite cleanUp_copy by exact Hlt. cbn [String.length].
    specialize (IH s ltac:(cbn [String.length]; lia)). lia.
  - rewrite cleanUp_match by exact Hge.
    pose proof (length_dropN (runLength isLF (String c s)) (String c s)) as Hd.
    pose proof (runLength_le_length isLF (String c s)) as Hr.
    specialize (IH (dropN (runLength isLF (String c s)) (String c s))
                   ltac:(lia)).
    rewrite !length_append. change (String.length NL) with 1%nat. lia.
Qed.

(** X4: a successful removal deletes one occurrence of the resolved block,
    the first one in the text, and then cleans the rest: the returned text
    is the clean-up of the text before and after that occurrence. *)
Theorem X4_removal_deletes_first_occurrence
        (content functionName result : string) :
  removeAssemblyFunction content functionName = Some result ->
  exists functionCode pre post,
    extractAssemblyFunction content functionName = Some functionCode /\
    content = pre ++ functionCode ++ post /\
    result = cleanUp (pre ++ post) /\
    forall u v, pre = u ++ v -> v <> EmptyString ->
                startsWith functionCode (v ++ functionCode ++ post) = false.
Proof.
  intros H. apply remove_unfold in H as (fc & Hfc & _ & ->).
  pose proof Hfc as Hrun.
  apply extract_run_of_lines in Hrun as (s & e & _ & _ & _ & _ & _ & Hin).
  destruct (replaceFirst_first_occurrence fc EmptyString content Hin)
    as (pre & post & Hc & Hrep & Hfirst).
  exists fc, pre, post. rewrite Hrep. now repeat split.
Qed.

Lemma X4_removal_deletes_first_occurrence_witness :
  exists functionCode pre post,
    extractAssemblyFunction
      (join ["glabel g"; ".size g"; "glabel f"; "nop"; ".size f"; "x"]) "f"
    = Some functionCode /\
    join ["glabel g"; ".size g"; "glabel f"; "nop"; ".size f"; "x"]
    = pre ++ functionCode ++ post /\
    join ["glabel g"; ".size g"; EmptyString; "x"] = cleanUp (pre ++ post) /\
    forall u v, pre = u ++ v -> v <> EmptyString ->
                startsWith functionCode (v ++ functionCode ++ post) = false.
Proof.
  apply (X4_removal_deletes_first_occurrence
           (join ["glabel g"; ".size g"; "glabel f"; "nop"; ".size f"; "x"])
           "f").
  reflexivity.
Defined.

(** X5: a successful removal returns a text that is strictly shorter than
    the module text. *)
Theorem X5_removal_shortens_text (content functionName result : string) :
  removeAssemblyFunction content functionName = Some result ->
  (String.length result < String.length content)%nat.
Proof.
  intros H. apply remove_unfold in H as (fc & Hfc & Hne & ->).
  apply extract_run_of_lines in Hfc as (s & e & _ & _ & _ & _ & _ & Hin).
  destruct (replaceFirst_first_occurrence fc EmptyString content Hin)
    as (pre & post & Hc & Hrep & _).
  rewrite Hrep. cbn [append].
  pose proof (cleanUp_length_le (pre ++ post)) as Hle.
  rewrite Hc. rewrite !length_append in *.
  destruct fc; [contradiction|]. cbn [String.length]. lia.
Qed.

Lemma X5_removal_shortens_text_witness :
  (String.length (join [EmptyString; "glabel g"; ".size g"])
   < String.length (join ["glabel f"; ".size f"; "glabel g"; ".size g"]))%nat.
Proof.
  apply (X5_removal_shortens_text
           (join ["glabel f"; ".size f"; "glabel g"; ".size g"]) "f").
  reflexivity.
Defined.

(** X6: the text returned by a successful removal is stable under the
    clean-up: cleaning it again changes nothing. *)
Theorem X6_removal_result_is_clean (content functionName result : string) :
  removeAssemblyFunction content functionName = Some result ->
  cleanUp result = result.
Proof.
  intros H. apply remove_unfold in H as (fc & _ & _ & ->).
  apply cleanUp_fixed, cleanUp_no_triple.
Qed.

Lemma X6_removal_result_is_clean_witness :
  cleanUp (join ["glabel g"; ".size g"; EmptyString; "x"])
  = join ["glabel g"; ".size g"; EmptyString; "x"].
Proof.
  apply (X6_removal_result_is_clean
           (join ["glabel g"; ".size g"; EmptyString; EmptyString;
                  "glabel f"; "nop"; ".size f"; EmptyString; "x"]) "f").
  reflexivity.
Defined.

(* ================================================================== *)
(** * The tiers of the backward terminator search *)

Lemma terminatorSearch_last (lines : list string) (s i j : Z) :
  (0 <= s <= j)%Z -> (j < i)%Z ->
  isFunctionData (lineAt lines j) || isReturnMarker (lineAt lines j) = true ->
  (forall k, (j < k < i)%Z ->
             isFunctionData (lineAt lines k) = false /\
             isReturnMarker (lineAt lines k) = false) ->
  terminatorSearch lines s i = j.
Proof.
  intros Hs Hj Hstop Hafter. unfold terminatorSearch.
  replace (Z.to_nat (i - s))
    with (Z.to_nat (i - 1 - j) + S (Z.to_nat (j - s)))%nat by lia.
  rewrite backwardScan_skip.
  - rewrite backwardScan_step.
    replace (i - 1 - Z.of_nat (Z.to_nat (i - 1 - j)))%Z with j by lia.
    rewrite Hstop.
    destruct (Z.eqb_spec j (-1)); [lia|reflexivity].
  - intros k Hk. apply Hafter. lia.
Qed.

Lemma terminatorSearch_default (lines : list string) (s i : Z) :
  (forall k, (s <= k < i)%Z ->
             isFunctionData (lineAt lines k) = false /\
             isReturnMarker (lineAt lines k) = false) ->
  terminatorSearch lines s i = (i - 1)%Z.
Proof.
  intros H. unfold terminatorSearch. rewrite backwardScan_none; [reflexivity|].
  intros k Hk. apply H. lia.
Qed.

(** The end when the scan stops on a [glabel] line that is no size marker
    of the function. *)
Lemma boundary_end_at_glabel (content functionName : string) (i : Z) :
  functionStart (boundary content functionName) <> (-1)%Z ->
  (functionStart (boundary content functionName) < i < len (split content))%Z ->
  hasGlabel (lineAt (split content) i) = true ->
  isSizeMarker functionName (lineAt (split content) i) = false ->
  (forall k, (functionStart (boundary content functionName) < k < i)%Z ->
             isStop functionName (lineAt (split content) k) = false) ->
  functionEnd (boundary content functionName)
  = terminatorSearch (split content)
                     (functionStart (boundary content functionName)) i.
Proof.
  intros Hs Hi Hg Hsz Hbefore.
  pose proof (boundary_start_range _ _ Hs) as Hr.
  assert (Hstop : isStop functionName (lineAt (split content) i) = true).
  { unfold isStop. rewrite Hg. apply orb_true_r. }
  pose proof (boundary_stop_first _ _ i Hs Hi Hstop Hbefore) as Hfirst.
  pose proof (boundary_end _ _ Hs) as He. cbv zeta in He.
  rewrite Hfirst, Hsz in He.
  destruct (Z.eqb_spec i (-1)); [lia|]. exact He.
Qed.

(** X7: when the function is ended by the [glabel] line [i] of the next
    function and no line from the start up to [i] is function data
    ([.size ...] or [.align 3]) or a return ([jr ...]), the resolved end is
    the line just before [i]. *)
Theorem X7_end_defaults_to_line_before_next_start
        (content functionName : string) (i : Z) :
  functionStart (boundary content functionName) <> (-1)%Z ->
  (functionStart (boundary content functionName) < i < len (split content))%Z ->
  hasGlabel (lineAt (split content) i) = true ->
  isSizeMarker functionName (lineAt (split content) i) = false ->
  (forall k, (functionStart (boundary content functionName) < k < i)%Z ->
             isStop functionName (lineAt (split content) k) = false) ->
  (forall k, (functionStart (boundary content functionName) <= k < i)%Z ->
             isFunctionData (lineAt (split content) k) = false /\
             isReturnMarker (lineAt (split content) k) = false) ->
  functionEnd (boundary content functionName) = (i - 1)%Z /\
  extractAssemblyFunction content functionName
  = Some (join (slice (split content)
                      (functionStart (boundary content functionName)) i)).
Proof.
  intros Hs Hi Hg Hsz Hbefore Hnone.
  pose proof (boundary_end_at_glabel _ _ i Hs Hi Hg Hsz Hbefore) as He.
  rewrite terminatorSearch_default in He by exact Hnone.
  split; [exact He|].
  rewrite extract_resolved by (assumption || lia).
  rewrite He. do 3 f_equal. lia.
Qed.

Lemma X7_end_defaults_to_line_before_next_start_witness :
  functionEnd (boundary (join ["glabel f"; "addiu"; "nop"; "glabel g"]) "f")
  = (3 - 1)%Z /\
  extractAssemblyFunction (join ["glabel f"; "addiu"; "nop"; "glabel g"]) "f"
  = Some (join (slice (split (join ["glabel f"; "addiu"; "nop"; "glabel g"]))
                      (functionStart
                         (boundary
                            (join ["glabel f"; "addiu"; "nop"; "glabel g"])
                            "f"))
                      3)).
Proof.
  apply (X7_end_defaults_to_line_before_next_start
           (join ["glabel f"; "addiu"; "nop"; "glabel g"]) "f" 3).
  - vm_compute. discriminate.
  - vm_compute. split; reflexivity.
  - reflexivity.
  - reflexivity.
  - intros k Hk. change (0 < k < 3)%Z in Hk.
    assert (E : k = 1%Z \/ k = 2%Z) by lia.
    destruct E as [->| ->]; reflexivity.
  - intros k Hk. change (0 <= k < 3)%Z in Hk.
    assert (E : k = 0%Z \/ k = 1%Z \/ k = 2%Z) by lia.
    destruct E as [->|[->| ->]]; split; reflexivity.
Defined.

(** X8: when the function is ended by the [glabel] line [i] of the next
    function and the last line before [i] that is function data or a
    return is a function data line [j] (it begins with [.size] or is
    [.align 3]), the resolved end is [j]: the lines between [j] and [i] are
    left out of the function. *)
Theorem X8_end_at_last_function_data
        (content functionName : string) (i j : Z) :
  functionStart (boundary content functionName) <> (-1)%Z ->
  (functionStart (boundary content functionName) < i < len (split content))%Z ->
  hasGlabel (lineAt (split content) i) = true ->
  isSizeMarker functionName (lineAt (split content) i) = false ->
  (forall k, (functionStart (boundary content functionName) < k < i)%Z ->
             isStop functionName (lineAt (split content) k) = false) ->
  (functionStart (boundary content functionName) <= j < i)%Z ->
  isFunctionData (lineAt (split content) j) = true ->
  (forall k, (j < k < i)%Z ->
             isFunctionData (lineAt (split content) k) = false /\
             isReturnMarker (lineAt (split content) k) = false) ->
  functionEnd (boundary content functionName) = j /\
  extractAssemblyFunction content functionName
  = Some (join (slice (split content)
                      (functionStart (boundary content functionName))
                      (j + 1))).
Proof.
  intros Hs Hi Hg Hsz Hbefore Hj Hdata Hafter.
  pose proof (boundary_start_range _ _ Hs) as Hr.
  pose proof (boundary_end_at_glabel _ _ i Hs Hi Hg Hsz Hbefore) as He.
  rewrite (terminatorSearch_last _ _ i j) in He
    by (lia || assumption || now rewrite Hdata).
  split; [exact He|].
  rewrite extract_resolved by (assumption || lia).
  now rewrite He.
Qed.

Lemma X8_end_at_last_function_data_witness :
  functionEnd
    (boundary (join ["glabel f"; "jr $ra"; ".align 3"; "nop"; "glabel g"]) "f")
  = 2%Z /\
  extractAssemblyFunction
    (join ["glabel f"; "jr $ra"; ".align 3"; "nop"; "glabel g"]) "f"
  = Some (join (slice (split (join ["glabel f"; "jr $ra"; ".align 3"; "nop";
                                    "glabel g"]))
                      (functionStart
                         (boundary
                            (join ["glabel f"; "jr $ra"; ".align 3"; "nop";
                                   "glabel g"]) "f"))
                      (2 + 1))).
Proof.
  apply (X8_end_at_last_function_data
           (join ["glabel f"; "jr $ra"; ".align 3"; "nop"; "glabel g"])
           "f" 4 2).
  - vm_compute. discriminate.
  - vm_compute. split; reflexivity.
  - reflexivity.
  - reflexivity.
  - intros k Hk. change (0 < k < 4)%Z in Hk.
    assert (E : k = 1%Z \/ k = 2%Z \/ k = 3%Z) by lia.
    destruct E as [->|[->| ->]]; reflexivity.
  - vm_compute. split; [discriminate|reflexivity].
  - reflexivity.
  - intros k Hk. assert (E : k = 3%Z) by lia. subst k. split; reflexivity.
Defined.

(** X9: a returned function never runs into the next one: no line
    strictly between its first and its last line contains [glabel] or
    [.size name], and when its last line contains [glabel] that line also
    contains [.size name]. *)
Theorem X9_extracted_block_has_no_inner_stop
        (content functionName code : string) :
  extractAssemblyFunction content functionName = Some code ->
  (forall k,
      (functionStart (boundary content functionName) < k
       < functionEnd (boundary content functionName))%Z ->
      isStop functionName (lineAt (split content) k) = false) /\
  ((functionStart (boundary content functionName)
    < functionEnd (boundary content functionName))%Z ->
   hasGlabel (lineAt (split content)
                     (functionEnd (boundary content functionName))) = true ->
   isSizeMarker functionName
                (lineAt (split content)
                        (functionEnd (boundary content functionName))) = true).
Proof.
  intros H. apply extract_some in H as (Hs & He & _).
  pose proof (boundary_start_range _ _ Hs) as Hr.
  pose proof (boundary_end _ _ Hs) as E. cbv zeta in E.
  set (s := functionStart (boundary content functionName)) in *.
  set (e := functionEnd (boundary content functionName)) in *.
  pose proof (findFrom_range (isStop functionName)
                (skipn (Z.to_nat (s + 1)) (split content)) (s + 1)
                ltac:(lia)) as Hq.
  rewrite len_skipn in Hq by lia.
  remember (findFrom (isStop functionName)
                     (skipn (Z.to_nat (s + 1)) (split content)) (s + 1))
    as i eqn:Hi.
  destruct (Z.eqb_spec i (-1)) as [Ei|Ei]; [congruence|].
  destruct Hq as [Hq|Hq]; [contradiction|].
  destruct (findFrom_hit (isStop functionName) _ (s + 1) i
                         ltac:(lia) (eq_sym Hi) Ei) as [_ Hbefore].
  assert (Hinner : forall k, (s < k < i)%Z ->
                             isStop functionName (lineAt (split content) k)
                             = false).
  { intros k Hk. specialize (Hbefore k ltac:(lia)).
    now rewrite nth_skipn_Z in Hbefore by lia. }
  assert (Hle : (e <= i)%Z).
  { rewrite E. destruct (isSizeMarker functionName (lineAt (split content) i)).
    - lia.
    - pose proof (terminatorSearch_range (split content) s i ltac:(lia)). lia. }
  split.
  - intros k Hk. apply Hinner. lia.
  - intros Hlt Hg.
    destruct (isSizeMarker functionName (lineAt (split content) i)) eqn:Hsz.
    + now rewrite E.
    + pose proof (terminatorSearch_range (split content) s i ltac:(lia)) as Ht.
      assert (Hnone : isStop functionName (lineAt (split content) e) = false)
        by (apply Hinner; lia).
      unfold isStop in Hnone. apply orb_false_iff in Hnone as [_ Hnone].
      congruence.
Qed.

Lemma X9_extracted_block_has_no_inner_stop_witness :
  (forall k,
      (functionStart (boundary (join ["glabel f"; "nop"; ".size f"; "x"]) "f")
       < k
       < functionEnd (boundary (join ["glabel f"; "nop"; ".size f"; "x"]) "f"))%Z ->
      isStop "f" (lineAt (split (join ["glabel f"; "nop"; ".size f"; "x"])) k)
      = false) /\
  ((functionStart (boundary (join ["glabel f"; "nop"; ".size f"; "x"]) "f")
    < functionEnd (boundary (join ["glabel f"; "nop"; ".size f"; "x"]) "f"))%Z ->
   hasGlabel
     (lineAt (split (join ["glabel f"; "nop"; ".size f"; "x"]))
             (functionEnd
                (boundary (join ["glabel f"; "nop"; ".size f"; "x"]) "f")))
   = true ->
   isSizeMarker "f"
     (lineAt (split (join ["glabel f"; "nop"; ".size f"; "x"]))
             (functionEnd
                (boundary (join ["glabel f"; "nop"; ".size f"; "x"]) "f")))
   = true).
Proof.
  apply (X9_extracted_block_has_no_inner_stop
           (join ["glabel f"; "nop"; ".size f"; "x"]) "f"
           (join ["glabel f"; "nop"; ".size f"])).
  reflexivity.
Defined.

(* ================================================================== *)
(** * Further properties of the catalog builder *)

Lemma line_in_text (content l : string) :
  In l (split content) -> exists a b, content = a ++ l ++ b.
Proof.
  intros H. apply in_split in H as (A & C & HAC).
  exists (textBefore A), (textAfter C).
  rewrite <- (join_split content), HAC.
  change (A ++ l :: C)%list with (A ++ [l] ++ C)%list.
  now rewrite join_around by discriminate.
Qed.

Lemma line_without_glabel (content l : string) :
  includes "glabel" content = false -> In l (split content) ->
  hasGlabel l = false.
Proof.
  intros H Hin. destruct (line_in_text _ _ Hin) as (a & b & ->).
  unfold hasGlabel. rewrite includes_glabel_trim.
  exact (includes_part _ _ _ _ H).
Qed.

Lemma catStep_closed_plain (st : catState) (l : string) :
  curOpen st = None -> hasGlabel l = false -> catStep st l = st.
Proof.
  intros Hc Hg. unfold catStep. cbv zeta.
  unfold hasGlabel in Hg. now rewrite (glabelMatch_none _ Hg), Hc.
Qed.

Lemma catFold_closed_plain (ls : list string) (st : catState) :
  curOpen st = None -> Forall (fun l => hasGlabel l = false) ls ->
  fold_left catStep ls st = st.
Proof.
  intros Hc H. induction H as [|l ls Hl _ IH]; [reflexivity|].
  cbn [fold_left]. now rewrite catStep_closed_plain.
Qed.

Lemma firstSome_none {A B : Type} (f : A -> option B) (l : list A) :
  (forall a, In a l -> f a = None) -> firstSome f l = None.
Proof.
  induction l as [|a l IH]; intros H; [reflexivity|].
  cbn [firstSome]. rewrite (H a) by now left.
  apply IH. intros b Hb. apply H. now right.
Qed.

(** X10: a text in which [glabel] does not occur has an empty catalog and
    no function name. *)
Theorem X10_no_glabel_no_functions (content : string) :
  includes "glabel" content = false ->
  listAssemblyFunctions content = [] /\
  extractFunctionName content = None.
Proof.
  intros H. split.
  - rewrite listAssemblyFunctions_catalogLines. unfold catalogLines.
    rewrite catFold_closed_plain; [reflexivity|reflexivity|].
    apply Forall_forall. intros l Hl. exact (line_without_glabel _ _ H Hl).
  - unfold extractFunctionName. cbv zeta. apply firstSome_none.
    intros l Hl. unfold extractFunctionNameFromLine. cbv zeta.
    rewrite <- includes_glabel_trim in H.
    pose proof (line_without_glabel _ _ H Hl) as Hg. unfold hasGlabel in Hg.
    fold (glabelMatch (trim l)). now rewrite (glabelMatch_none _ Hg).
Qed.

Lemma X10_no_glabel_no_functions_witness :
  listAssemblyFunctions (join ["f:"; "jr $ra"; ".size f"]) = [] /\
  extractFunctionName (join ["f:"; "jr $ra"; ".size f"]) = None.
Proof.
  apply (X10_no_glabel_no_functions (join ["f:"; "jr $ra"; ".size f"])).
  reflexivity.
Defined.

Lemma hasGlabel_includes (l : string) :
  hasGlabel l = true -> includes "glabel" l = true.
Proof. unfold hasGlabel. now rewrite includes_glabel_trim. Qed.

Lemma recordOk_lines (n l : string) (rest : list string) :
  allChars isWord n = true ->
  Forall (fun x => noLF x = true) (l :: rest) ->
  includes "glabel" l = true ->
  recordOk (mkRecord n (join (l :: rest))).
Proof.
  intros Hn Hlf Hl. split; [exact Hn|]. exists l, rest. cbn [code].
  split; [|exact Hl]. apply split_join; [discriminate|exact Hlf].
Qed.

Lemma catStep_recordOk (st : catState) (l : string) :
  noLF l = true ->
  Forall recordOk (emitted st) -> openOk st ->
  Forall recordOk (emitted (catStep st l)) /\ openOk (catStep st l).
Proof.
  intros Hlf Hem Hop. unfold catStep. cbv zeta. unfold openOk in *.
  destruct (glabelMatch (trim l)) as [fn|] eqn:Hg.
  - apply glabelMatch_sound in Hg as (Hin & _ & Hw).
    rewrite includes_glabel_trim in Hin.
    cbn [curOpen emitted].
    split; [|split; [exact Hw|split; [now constructor|now exists l, []]]].
    destruct (curOpen st) as [[n ls]|]; [|exact Hem].
    destruct Hop as (Hn & Hls & l0 & rest & -> & Hl0).
    apply Forall_app. split; [exact Hem|].
    constructor; [|constructor]. now apply recordOk_lines.
  - destruct (curOpen st) as [[n ls]|] eqn:Hcur.
    + destruct Hop as (Hn & Hls & l0 & rest & -> & Hl0).
      assert (Hls' : Forall (fun x => noLF x = true)
                            (l0 :: (rest ++ [l])%list)).
      { change (l0 :: (rest ++ [l])%list) with ((l0 :: rest) ++ [l])%list.
        apply Forall_app. split; [exact Hls|now constructor]. }
      destruct (sizeClosesCurrent (trim l) n).
      * cbn [curOpen emitted]. split; [|exact I].
        apply Forall_app. split; [exact Hem|].
        constructor; [|constructor].
        change ((l0 :: rest) ++ [l])%list with (l0 :: (rest ++ [l])%list).
        now apply recordOk_lines.
      * destruct (includes "glabel" (trim l)) eqn:Hgl.
        -- cbn [curOpen emitted]. rewrite includes_glabel_trim in Hgl. split.
           ++ apply Forall_app. split; [exact Hem|].
              constructor; [|constructor]. now apply recordOk_lines.
           ++ split; [reflexivity|].
              split; [now constructor|now exists l, []].
        -- cbn [curOpen emitted]. split; [exact Hem|].
           split; [exact Hn|]. split; [exact Hls'|].
           now exists l0, (rest ++ [l])%list.
    + rewrite Hcur. now split.
Qed.

Lemma catFold_recordOk (ls : list string) (st : catState) :
  Forall (fun l => noLF l = true) ls ->
  Forall recordOk (emitted st) -> openOk st ->
  Forall recordOk (emitted (fold_left catStep ls st)) /\
  openOk (fold_left catStep ls st).
Proof.
  revert st. induction ls as [|l ls IH]; intros st Hlf Hem Hop; [now split|].
  cbn [fold_left]. inversion Hlf as [|? ? Hl Hls]; subst.
  destruct (catStep_recordOk st l Hl Hem Hop) as [H1 H2].
  now apply IH.
Qed.

(** X11: every record of the catalog has a name made of word characters
    only (the empty name included), and the first line of its code, the
    first element of [split (code r)], contains [glabel]. *)
Theorem X11_catalog_records_begin_with_glabel
        (content : string) (r : FunctionRecord) :
  In r (listAssemblyFunctions content) ->
  allChars isWord (name r) = true /\
  exists l rest, split (code r) = l :: rest /\ includes "glabel" l = true.
Proof.
  rewrite listAssemblyFunctions_catalogLines. unfold catalogLines, catFinish.
  destruct (catFold_recordOk (split content) catInit (split_noLF content)
                             (Forall_nil _) I) as [Hem Hop].
  unfold openOk in Hop. rewrite Forall_forall in Hem.
  destruct (curOpen (fold_left catStep (split content) catInit))
    as [[n ls]|]; intros Hin.
  - apply in_app_or in Hin as [Hin|[<-|[]]]; [exact (Hem _ Hin)|].
    destruct Hop as (Hn & Hls & l0 & rest & -> & Hl0).
    now apply recordOk_lines.
  - exact (Hem _ Hin).
Qed.

Lemma X11_catalog_records_begin_with_glabel_witness :
  allChars isWord (name (mkRecord "f" (join ["glabel f"; "nop"]))) = true /\
  exists l rest,
    split (code (mkRecord "f" (join ["glabel f"; "nop"]))) = l :: rest /\
    includes "glabel" l = true.
Proof.
  apply (X11_catalog_records_begin_with_glabel
           (join ["x"; "glabel f"; "nop"; "glabel g"])).
  left. reflexivity.
Defined.

Lemma matchesStart_hasGlabel (l : string) :
  matchesStart l = true -> hasGlabel l = true.
Proof.
  unfold matchesStart, hasGlabel.
  destruct (glabelMatch (trim l)) eqn:E; [|discriminate]. intros _.
  now apply glabelMatch_sound in E.
Qed.

(** One more function is opened by a line from which a name is read, and
    only by a line that contains [glabel]. *)
Lemma catStep_count (st : catState) (l : string) :
  (List.length (emitted st) + openCount st + b2n (matchesStart l)
   <= List.length (emitted (catStep st l)) + openCount (catStep st l)
   <= List.length (emitted st) + openCount st + b2n (hasGlabel l))%nat.
Proof.
  pose proof (matchesStart_hasGlabel l) as Hmg.
  unfold catStep, matchesStart, hasGlabel, openCount in *. cbv zeta.
  destruct (glabelMatch (trim l)) as [fn|].
  - rewrite (Hmg eq_refl). cbn [curOpen emitted b2n].
    destruct (curOpen st) as [[n ls]|]; rewrite ?length_app;
      cbn [List.length]; lia.
  - destruct (curOpen st) as [[n ls]|] eqn:Hcur.
    + destruct (sizeClosesCurrent (trim l) n).
      * cbn [curOpen emitted b2n]. rewrite length_app. cbn [List.length].
        destruct (includes "glabel" (trim l)); cbn [b2n]; lia.
      * destruct (includes "glabel" (trim l)); cbn [curOpen emitted b2n];
          rewrite ?length_app; cbn [List.length]; lia.
    + rewrite Hcur. destruct (includes "glabel" (trim l)); cbn [b2n]; lia.
Qed.

Lemma filter_length_cons {A : Type} (f : A -> bool) (x : A) (l : list A) :
  List.length (filter f (x :: l))
  = ((if f x then 1 else 0) + List.length (filter f l))%nat.
Proof. cbn [filter]. destruct (f x); reflexivity. Qed.

Lemma catFold_count (ls : list string) (st : catState) :
  (List.length (emitted st) + openCount st
   + List.length (filter matchesStart ls)
   <= List.length (emitted (fold_left catStep ls st))
      + openCount (fold_left catStep ls st)
   <= List.length (emitted st) + openCount st
      + List.length (filter hasGlabel ls))%nat.
Proof.
  revert st. induction ls as [|l ls IH]; intros st; [cbn; lia|].
  cbn [fold_left]. rewrite !filter_length_cons.
  pose proof (catStep_count st l) as Hs. specialize (IH (catStep st l)).
  unfold b2n in Hs. lia.
Qed.

Lemma catFinish_length (st : catState) :
  List.length (catFinish st)
  = (List.length (emitted st) + openCount st)%nat.
Proof.
  unfold catFinish, openCount. destruct (curOpen st) as [[n ls]|].
  - rewrite length_app. reflexivity.
  - lia.
Qed.

(** X12: the catalog skips no start marker and invents none: it has at
    least one record for each line that matches [glabel <identifier>] and
    at most one for each line that contains [glabel]. *)
Theorem X12_catalog_size_between_marker_counts (content : string) :
  (List.length (filter matchesStart (split content))
   <= List.length (listAssemblyFunctions content)
   <= List.length (filter hasGlabel (split content)))%nat.
Proof.
  rewrite listAssemblyFunctions_catalogLines. unfold catalogLines.
  rewrite catFinish_length.
  pose proof (catFold_count (split content) catInit) as H.
  cbn [catInit emitted openCount curOpen List.length] in H. lia.
Qed.

(* ------------------------------------------------------------------ *)

Lemma catStep_catInv (done : list string) (st : catState) (l : string) :
  catInv done st ->
  (forall n ls, curOpen st = Some (n, ls) -> ls <> []) ->
  catInv (done ++ [l]) (catStep st l) /\
  (forall n ls, curOpen (catStep st l) = Some (n, ls) -> ls <> []).
Proof.
  intros (pre & Hdone & Hseg) Hne. unfold catInv, catStep, openLines in *.
  cbv zeta.
  destruct (glabelMatch (trim l)) as [fn|].
  - cbn [curOpen emitted]. split; [|intros n ls [= _ <-]; discriminate].
    destruct (curOpen st) as [[n ls]|] eqn:Hcur.
    + exists (pre ++ ls)%list. split; [now rewrite Hdone|].
      apply Seg_block; [exact Hseg|]. now apply (Hne n).
    + exists pre. rewrite app_nil_r in Hdone. now subst done.
  - destruct (curOpen st) as [[n ls]|] eqn:Hcur.
    + destruct (sizeClosesCurrent (trim l) n).
      * cbn [curOpen emitted]. split; [|discriminate].
        exists (pre ++ ls ++ [l])%list. split.
        -- now rewrite Hdone, app_nil_r, <- app_assoc.
        -- apply Seg_block; [exact Hseg|]. destruct ls; discriminate.
      * destruct (includes "glabel" (trim l)).
        -- cbn [curOpen emitted].
           split; [|intros n' ls' [= _ <-]; discriminate].
           exists (pre ++ ls)%list. split; [now rewrite Hdone|].
           apply Seg_block; [exact Hseg|]. now apply (Hne n).
        -- cbn [curOpen emitted].
           split; [|intros n' ls' [= _ <-]; destruct ls; discriminate].
           exists pre. split; [|exact Hseg].
           now rewrite Hdone, <- app_assoc.
    + rewrite Hcur. split; [|discriminate].
      exists (pre ++ [l])%list. rewrite app_nil_r in *. subst done.
      split; [reflexivity|]. now apply Seg_gap.
Qed.

Lemma catFold_catInv (ls done : list string) (st : catState) :
  catInv done st ->
  (forall n b, curOpen st = Some (n, b) -> b <> []) ->
  catInv (done ++ ls) (fold_left catStep ls st) /\
  (forall n b, curOpen (fold_left catStep ls st) = Some (n, b) -> b <> []).
Proof.
  revert done st. induction ls as [|l ls IH]; intros done st Hinv Hne.
  - rewrite app_nil_r. now split.
  - cbn [fold_left]. destruct (catStep_catInv done st l Hinv Hne) as [H1 H2].
    replace (done ++ l :: ls)%list with ((done ++ [l]) ++ ls)%list
      by (now rewrite <- app_assoc).
    now apply IH.
Qed.

Lemma catalogLines_segmented (ls : list string) :
  Segmented ls (catalogLines ls).
Proof.
  assert (H0 : catInv [] catInit) by (exists []; split; [reflexivity|constructor]).
  destruct (catFold_catInv ls [] catInit H0 ltac:(discriminate))
    as [(pre & Hdone & Hseg) Hne].
  cbn [app] in Hdone. unfold catalogLines, catFinish, openLines in *.
  destruct (curOpen (fold_left catStep ls catInit)) as [[n b]|] eqn:Hcur.
  - rewrite Hdone at 1. apply Seg_block; [exact Hseg|]. now apply (Hne n).
  - rewrite app_nil_r in Hdone. now subst pre.
Qed.

(** X13: the catalog cuts the lines of the module into records in file
    order: each record is the joined text of a non-empty group of
    consecutive lines, the groups do not overlap and follow each other in
    the order of the records. *)
Theorem X13_catalog_segments_the_lines (content : string) :
  Segmented (split content) (listAssemblyFunctions content).
Proof.
  rewrite listAssemblyFunctions_catalogLines. apply catalogLines_segmented.
Qed.

Lemma Segmented_code_lines (ls : list string) (rs : list FunctionRecord) :
  Segmented ls rs ->
  forall r, In r rs ->
            exists a b c, ls = (a ++ b ++ c)%list /\ b <> [] /\
                          code r = join b.
Proof.
  induction 1 as [|ls rs l _ IH|ls rs n b _ IH Hb]; intros r Hr.
  - contradiction.
  - destruct (IH r Hr) as (a & b & c & -> & Hb & Hc).
    exists a, b, (c ++ [l])%list. now rewrite <- !app_assoc.
  - apply in_app_or in Hr as [Hr|[<-|[]]].
    + destruct (IH r Hr) as (a & b' & c & -> & Hb' & Hc).
      exists a, b', (c ++ b)%list. now rewrite <- !app_assoc.
    + exists ls, b, []. now rewrite app_nil_r.
Qed.

(** X14: the code of every record of the catalog occurs in the module
    text, as the text of a run of its lines. *)
Theorem X14_catalog_code_occurs_in_text
        (content : string) (r : FunctionRecord) :
  In r (listAssemblyFunctions content) ->
  includes (code r) content = true /\
  exists a b c,
    split content = (a ++ b ++ c)%list /\ b <> [] /\ code r = join b.
Proof.
  intros Hr.
  destruct (Segmented_code_lines _ _ (catalogLines_segmented (split content))
                                 r)
    as (a & b & c & Hs & Hb & Hc).
  { now rewrite <- listAssemblyFunctions_catalogLines. }
  split; [|now exists a, b, c].
  apply includes_iff. exists (textBefore a), (textAfter c).
  rewrite Hc, <- join_around by exact Hb.
  rewrite <- Hs. symmetry. apply join_split.
Qed.

Lemma X14_catalog_code_occurs_in_text_witness :
  includes (code (mkRecord "f" (join ["glabel f"; "nop"])))
           (join ["x"; "glabel f"; "nop"; "glabel g"]) = true /\
  exists a b c,
    split (join ["x"; "glabel f"; "nop"; "glabel g"]) = (a ++ b ++ c)%list /\
    b <> [] /\ code (mkRecord "f" (join ["glabel f"; "nop"])) = join b.
Proof.
  apply (X14_catalog_code_occurs_in_text
           (join ["x"; "glabel f"; "nop"; "glabel g"])).
  left. reflexivity.
Defined.

(* ================================================================== *)
(** * Further properties of the call reference extractor *)

Lemma jalMatch_sound (t n : string) :
  jalMatch t = Some n -> n <> EmptyString /\ allChars isWord n = true.
Proof.
  unfold jalMatch, matchGroup.
  destruct (search reJal t) as [[g rest]|] eqn:E; [|discriminate].
  intros [= ->]. apply search_sound in E as (a & b & -> & Hm).
  unfold reJal in Hm. cbn [matchHere] in Hm.
  destruct (stripPrefix "jal" b) as [b'|]; [|discriminate].
  change (tryDown _ _ _) with
    (matchHere [Rep 1 isSpace; Cap 1 isWord] b' EmptyString) in Hm.
  now apply matchHere_space_word in Hm.
Qed.

Lemma refMatch_sound (t n : string) :
  refMatch t = Some n -> n <> EmptyString /\ allChars isWord n = true.
Proof.
  unfold refMatch, matchGroup.
  destruct (search reRef t) as [[g rest]|] eqn:E; [|discriminate].
  intros [= ->]. apply search_sound in E as (a & b & -> & Hm).
  unfold reRef in Hm. cbn [matchHere] in Hm.
  destruct (stripPrefix "@" b) as [b'|]; [|discriminate].
  apply tryDown_sound in Hm as (k & _ & Hm).
  now apply (matchHere_equals_word _ EmptyString) in Hm.
Qed.

Lemma setAdd_spec (x : string) (l : list string) :
  NoDup l -> NoDup (setAdd x l) /\
  forall y, In y (setAdd x l) <-> y = x \/ In y l.
Proof.
  intros Hnd. unfold setAdd.
  destruct (existsb (String.eqb x) l) eqn:E.
  - split; [exact Hnd|]. intros y. split; [now right|].
    intros [->|H]; [|exact H].
    apply existsb_exists in E as (z & Hz & Ez).
    apply String.eqb_eq in Ez. now subst z.
  - split.
    + apply NoDup_app; [exact Hnd|repeat constructor; intros []|].
      intros a Ha [Ea|[]]. subst a.
      assert (Ht : existsb (String.eqb x) l = true).
      { apply existsb_exists. exists x. split; [exact Ha|apply String.eqb_refl]. }
      congruence.
    + intros y. rewrite in_app_iff. cbn [In]. split.
      * intros [H|[<-|[]]]; [now right|now left].
      * intros [->|H]; [right; now left|now left].
Qed.

(** What one line adds: the names it had and the names its three matchers
    find. *)
Lemma callsStep_spec (calls : list string) (l : string) :
  NoDup calls ->
  NoDup (callsStep calls l) /\
  forall y, In y (callsStep calls l) <->
            In y calls \/ jalMatch (trim l) = Some y
            \/ refMatch (trim l) = Some y \/ directMatch (trim l) = Some y.
Proof.
  intros Hnd. unfold callsStep, addMatch. cbv zeta.
  assert (Hopt : forall (m : option string) (c : list string),
             NoDup c ->
             NoDup match m with Some x => setAdd x c | None => c end /\
             forall y, In y match m with Some x => setAdd x c | None => c end
                       <-> In y c \/ m = Some y).
  { intros [x|] c Hc.
    - destruct (setAdd_spec x c Hc) as [H1 H2]. split; [exact H1|].
      intros y. rewrite H2. split.
      + intros [->|H]; [now right|now left].
      + intros [H|[= ->]]; [now right|now left].
    - split; [exact Hc|]. intros y. split; [now left|].
      intros [H|H]; [exact H|discriminate]. }
  destruct (Hopt (jalMatch (trim l)) calls Hnd) as [N1 I1].
  destruct (Hopt (refMatch (trim l)) _ N1) as [N2 I2].
  destruct (Hopt (directMatch (trim l)) _ N2) as [N3 I3].
  split; [exact N3|]. intros y. rewrite I3, I2, I1. tauto.
Qed.

Lemma callsFold_spec (ls : list string) (calls : list string) :
  NoDup calls ->
  NoDup (fold_left callsStep ls calls) /\
  forall y, In y (fold_left callsStep ls calls) <->
            In y calls \/
            exists l, In l ls /\
                      (jalMatch (trim l) = Some y \/ refMatch (trim l) = Some y
                       \/ directMatch (trim l) = Some y).
Proof.
  revert calls. induction ls as [|l ls IH]; intros calls Hnd.
  - split; [exact Hnd|]. intros y. split; [now left|].
    intros [H|(l & [] & _)]. exact H.
  - cbn [fold_left]. destruct (callsStep_spec calls l Hnd) as [N1 I1].
    destruct (IH _ N1) as [N2 I2]. split; [exact N2|].
    intros y. rewrite I2, I1. split.
    + intros [[H|H]|(l' & Hl' & H)].
      * now left.
      * right. exists l. split; [now left|exact H].
      * right. exists l'. split; [now right|exact H].
    + intros [H|(l' & [<-|Hl'] & H)].
      * left. now left.
      * left. now right.
      * right. now exists l'.
Qed.

(** X15: the returned call references are pairwise distinct, and a name is
    returned exactly when one of the three matchers finds it on some line;
    every returned name is a non-empty run of word characters. *)
Theorem X15_call_references_are_distinct_matches (assembly : string) :
  NoDup (extractFunctionCallsFromAssembly assembly) /\
  (forall y,
      In y (extractFunctionCallsFromAssembly assembly) <->
      exists l, In l (split assembly) /\
                (jalMatch (trim l) = Some y \/ refMatch (trim l) = Some y
                 \/ directMatch (trim l) = Some y)) /\
  (forall y,
      In y (extractFunctionCallsFromAssembly assembly) ->
      y <> EmptyString /\ allChars isWord y = true).
Proof.
  unfold extractFunctionCallsFromAssembly.
  destruct (callsFold_spec (split assembly) [] (NoDup_nil _)) as [N I].
  assert (I' : forall y,
             In y (fold_left callsStep (split assembly) []) <->
             exists l, In l (split assembly) /\
                       (jalMatch (trim l) = Some y
                        \/ refMatch (trim l) = Some y
                        \/ directMatch (trim l) = Some y)).
  { intros y. rewrite I. split; [intros [[]|H]; exact H|now right]. }
  split; [exact N|]. split; [exact I'|].
  intros y Hy. apply I' in Hy as (l & _ & [H|[H|H]]).
  - now apply jalMatch_sound in H.
  - now apply refMatch_sound in H.
  - apply directMatch_sound in H as (a & kw & m & r & _ & _ & H1 & H2).
    now split.
Qed.

Lemma X15_call_references_are_distinct_matches_witness :
  "foo" <> EmptyString /\ allChars isWord "foo" = true.
Proof.
  apply (proj2 (proj2 (X15_call_references_are_distinct_matches
                         (join ["jal foo"; " nop"; "jal foo"]))) "foo").
  left. reflexivity.
Defined.

(* ------------------------------------------------------------------ *)

Lemma tryDown_top {A : Type} (f : nat -> option A) (n min : nat) (r : A) :
  (min <= n)%nat -> f n = Some r -> tryDown f n min = Some r.
Proof.
  intros Hle Hf. destruct n as [|n]; cbn [tryDown].
  - destruct (Nat.ltb_spec 0 min); [lia|now rewrite Hf].
  - destruct (Nat.ltb_spec (S n) min); [lia|now rewrite Hf].
Qed.

Lemma runLength_all (p : ascii -> bool) (a b : string) :
  allChars p a = true ->
  runLength p (a ++ b) = (String.length a + runLength p b)%nat.
Proof.
  induction a as [|c a IH]; [reflexivity|]. cbn [allChars]. intros H.
  apply andb_true_iff in H as [Hc Ha].
  cbn [append runLength String.length]. now rewrite Hc, IH.
Qed.

Lemma takeN_append (a b : string) : takeN (String.length a) (a ++ b) = a.
Proof. induction a as [|c a IH]; [now destruct b|]. cbn. now rewrite IH. Qed.

Lemma search_here (r : regex) (s : string) (m : string * string) :
  matchHere r s EmptyString = Some m -> search r s = Some m.
Proof. intros H. destruct s; cbn [search]; now rewrite H. Qed.

(** A word followed by something that is no word character is captured
    whole. *)
Lemma matchHere_word (name rest cap : string) :
  name <> EmptyString -> allChars isWord name = true ->
  runLength isWord rest = 0%nat ->
  matchHere [Cap 1 isWord] (name ++ rest) cap = Some (name, rest).
Proof.
  intros Hne Hw Hrest. cbn [matchHere].
  rewrite runLength_all, Hrest, Nat.add_0_r by exact Hw.
  apply tryDown_top.
  - destruct name; [contradiction|cbn [String.length]; lia].
  - now rewrite takeN_append, dropN_append.
Qed.

Lemma word_not_space_run (name rest : string) :
  name <> EmptyString -> allChars isWord name = true ->
  runLength isSpace (name ++ rest) = 0%nat.
Proof.
  intros Hne Hw. destruct name as [|c name]; [contradiction|].
  cbn [allChars] in Hw. apply andb_true_iff in Hw as [Hc _].
  cbn [append runLength]. now rewrite (isWord_not_space _ Hc).
Qed.

Lemma jalMatch_line (ws name rest : string) :
  ws <> EmptyString -> allChars isSpace ws = true ->
  name <> EmptyString -> allChars isWord name = true ->
  runLength isWord rest = 0%nat ->
  jalMatch ("jal" ++ ws ++ name ++ rest) = Some name.
Proof.
  intros Hws Hsp Hne Hw Hrest. unfold jalMatch, matchGroup.
  rewrite (search_here reJal _ (name, rest)); [reflexivity|].
  unfold reJal. cbn [matchHere]. unfold stripPrefix.
  rewrite startsWith_append, dropN_append.
  rewrite runLength_all, word_not_space_run, Nat.add_0_r by assumption.
  apply tryDown_top.
  - destruct ws; [contradiction|cbn [String.length]; lia].
  - rewrite dropN_append.
    exact (matchHere_word name rest EmptyString Hne Hw Hrest).
Qed.

(** X16: a line whose trimmed text begins with [jal], white space and a
    name (word characters, followed by no further word character) puts
    that name among the returned call references. *)
Theorem X16_jal_line_is_reported
        (assembly l ws calledName rest : string) :
  In l (split assembly) ->
  trim l = "jal" ++ ws ++ calledName ++ rest ->
  ws <> EmptyString -> allChars isSpace ws = true ->
  calledName <> EmptyString -> allChars isWord calledName = true ->
  runLength isWord rest = 0%nat ->
  In calledName (extractFunctionCallsFromAssembly assembly).
Proof.
  intros Hl Ht Hws Hsp Hne Hw Hrest. unfold extractFunctionCallsFromAssembly.
  apply (callsFold_spec (split assembly) [] (NoDup_nil _)).
  right. exists l. split; [exact Hl|]. left. rewrite Ht.
  now apply jalMatch_line.
Qed.

Lemma X16_jal_line_is_reported_witness :
  In "func_80012345"
     (extractFunctionCallsFromAssembly
        (join ["glabel f"; "  jal   func_80012345 # call"; " nop"])).
Proof.
  apply (X16_jal_line_is_reported
           (join ["glabel f"; "  jal   func_80012345 # call"; " nop"])
           "  jal   func_80012345 # call" "   " "func_80012345" " # call").
  - right. left. reflexivity.
  - reflexivity.
  - discriminate.
  - reflexivity.
  - discriminate.
  - reflexivity.
  - reflexivity.
Defined.

(* ================================================================== *)
(** * Properties of the function name *)

Lemma glabelMatch_shape (t n : string) :
  glabelMatch t = Some n ->
  exists a ws b,
    t = a ++ "glabel" ++ ws ++ n ++ b /\
    ws <> EmptyString /\ allChars isSpace ws = true /\
    n <> EmptyString /\ allChars isWord n = true.
Proof.
  unfold glabelMatch, matchGroup.
  destruct (search reGlabel t) as [[g rest]|] eqn:E; [|discriminate].
  intros [= ->]. apply search_sound in E as (a & b & -> & Hm).
  unfold reGlabel in Hm. cbn [matchHere] in Hm.
  destruct (stripPrefix "glabel" b) as [b'|] eqn:Eb; [|discriminate].
  apply stripPrefix_sound in Eb. subst b.
  apply tryDown_sound in Hm as (k & Hk & Hm).
  apply tryDown_sound in Hm as (k' & Hk' & Hm).
  injection Hm as <- <-.
  destruct (takeN_run isSpace k b' ltac:(lia)) as [Hsp Hlen].
  destruct (takeN_run isWord k' (dropN k b') ltac:(lia)) as [Hw Hlen'].
  exists a, (takeN k b'), (dropN k' (dropN k b')).
  split; [now rewrite !takeN_dropN|].
  repeat split; try assumption.
  - intros E. rewrite E in Hlen. cbn in Hlen. lia.
  - intros E. rewrite E in Hlen'. cbn in Hlen'. lia.
Qed.

Lemma firstSome_ext {A B : Type} (f g : A -> option B) (l : list A) :
  (forall a, f a = g a) -> firstSome f l = firstSome g l.
Proof.
  intros H. induction l as [|a l IH]; [reflexivity|].
  cbn [firstSome]. now rewrite H, IH.
Qed.

(** The truthiness test on the name never rejects a match: the group is
    never empty. *)
Lemma extractFunctionName_firstSome (asmCode : string) :
  extractFunctionName asmCode
  = firstSome (fun l => glabelMatch (trim l)) (split (trim asmCode)).
Proof.
  unfold extractFunctionName. cbv zeta. apply firstSome_ext. intros l.
  unfold extractFunctionNameFromLine. cbv zeta. fold (glabelMatch (trim l)).
  destruct (glabelMatch (trim l)) as [n|] eqn:E; [|reflexivity].
  apply glabelMatch_sound in E as (_ & Hne & _).
  destruct n; [contradiction|reflexivity].
Qed.

(** X17: a returned function name is a non-empty run of word characters
    that stands in the text after [glabel] and some white space. *)
Theorem X17_function_name_follows_glabel (asmCode n : string) :
  extractFunctionName asmCode = Some n ->
  n <> EmptyString /\ allChars isWord n = true /\
  exists a ws b,
    asmCode = a ++ "glabel" ++ ws ++ n ++ b /\
    ws <> EmptyString /\ allChars isSpace ws = true.
Proof.
  rewrite extractFunctionName_firstSome. intros H.
  apply firstSome_sound in H as (l & Hl & Hm).
  apply glabelMatch_shape in Hm as (a & ws & b & Ht & Hws & Hsp & Hne & Hw).
  split; [exact Hne|]. split; [exact Hw|].
  destruct (trim_split l) as (w1 & w2 & El).
  destruct (line_in_text _ _ Hl) as (x & y & Ex).
  destruct (trim_split asmCode) as (v1 & v2 & Ea).
  exists (v1 ++ x ++ w1 ++ a), ws, (b ++ w2 ++ y ++ v2).
  split; [|now split].
  rewrite Ea at 1. rewrite Ex, El, Ht. now rewrite !append_assoc.
Qed.

Lemma X17_function_name_follows_glabel_witness :
  "func_1" <> EmptyString /\ allChars isWord "func_1" = true /\
  exists a ws b,
    join ["  .text"; "glabel  func_1 # entry"; "nop"]
    = a ++ "glabel" ++ ws ++ "func_1" ++ b /\
    ws <> EmptyString /\ allChars isSpace ws = true.
Proof.
  apply (X17_function_name_follows_glabel
           (join ["  .text"; "glabel  func_1 # entry"; "nop"]) "func_1").
  reflexivity.
Defined.

(* ------------------------------------------------------------------ *)

Lemma firstSome_app {A B : Type} (f : A -> option B) (l1 l2 : list A) :
  firstSome f (l1 ++ l2)
  = match firstSome f l1 with
    | Some r => Some r
    | None => firstSome f l2
    end.
Proof.
  induction l1 as [|a l1 IH]; [reflexivity|]. cbn [app firstSome].
  destruct (f a); [reflexivity|exact IH].
Qed.

Lemma trimEnd_spaces (w : string) :
  allChars isSpace w = true -> trimEnd w = EmptyString.
Proof.
  induction w as [|c w IH]; [reflexivity|]. cbn [allChars]. intros H.
  apply andb_true_iff in H as [Hc Hw]. cbn [trimEnd].
  now rewrite IH, Hc.
Qed.

Lemma trimEnd_append_spaces (x w : string) :
  allChars isSpace w = true -> trimEnd (x ++ w) = trimEnd x.
Proof.
  intros Hw. induction x as [|c x IH]; cbn [append].
  - now apply trimEnd_spaces.
  - cbn [trimEnd]. now rewrite IH.
Qed.

Lemma trimStart_spaces (w : string) :
  allChars isSpace w = true -> trimStart w = EmptyString.
Proof.
  unfold trimStart. induction w as [|c w IH]; [reflexivity|].
  cbn [allChars]. intros H. apply andb_true_iff in H as [Hc Hw].
  cbn [dropWhile]. now rewrite Hc, IH.
Qed.

Lemma trim_append_spaces (l w : string) :
  allChars isSpace w = true -> trim (l ++ w) = trim l.
Proof.
  intros Hw. unfold trim.
  assert (H : exists w1, trimStart (l ++ w) = trimStart l ++ w1 /\
                         allChars isSpace w1 = true).
  { unfold trimStart. induction l as [|c l IH]; cbn [append].
    - exists EmptyString. split; [|reflexivity].
      now apply trimStart_spaces.
    - cbn [dropWhile]. destruct (isSpace c); [exact IH|].
      exists w. now split. }
  destruct H as (w1 & -> & Hw1). now apply trimEnd_append_spaces.
Qed.

Lemma trim_cons_space (c : ascii) (l : string) :
  isSpace c = true -> trim (String c l) = trim l.
Proof. intros Hc. unfold trim, trimStart. cbn [dropWhile]. now rewrite Hc. Qed.

Lemma isLF_isSpace (c : ascii) : isLF c = true -> isSpace c = true.
Proof. intros H. apply isLF_iff in H. now subst c. Qed.

Lemma split_cons_other (c : ascii) (s : string) :
  isLF c = false ->
  exists l0 ls, split s = l0 :: ls /\ split (String c s) = String c l0 :: ls.
Proof.
  intros Hc. cbn [split]. rewrite Hc.
  pose proof (split_nonempty s) as Hne.
  destruct (split s) as [|l0 ls]; [contradiction|]. now exists l0, ls.
Qed.

Section FirstName.
Let g : string -> option string := fun l => glabelMatch (trim l).

Lemma firstName_cons_space (c : ascii) (s : string) :
  isSpace c = true ->
  firstSome g (split (String c s)) = firstSome g (split s).
Proof.
  intros Hc. destruct (isLF c) eqn:Hlf.
  - cbn [split]. rewrite Hlf. reflexivity.
  - destruct (split_cons_other c s Hlf) as (l0 & ls & -> & ->).
    cbn [firstSome]. unfold g. now rewrite trim_cons_space.
Qed.

Lemma firstName_trimStart (s : string) :
  firstSome g (split (trimStart s)) = firstSome g (split s).
Proof.
  unfold trimStart. induction s as [|c s IH]; [reflexivity|].
  cbn [dropWhile]. destruct (isSpace c) eqn:Hc; [|reflexivity].
  now rewrite IH, firstName_cons_space.
Qed.

Lemma firstName_spaces (w : string) :
  allChars isSpace w = true -> firstSome g (split w) = None.
Proof.
  induction w as [|c w IH]; [reflexivity|]. cbn [allChars]. intros H.
  apply andb_true_iff in H as [Hc Hw].
  rewrite firstName_cons_space by exact Hc. now apply IH.
Qed.

(** Appending white space to a text changes its last line by white space
    and adds lines of white space. *)
Lemma split_append_spaces (t w : string) :
  allChars isSpace w = true ->
  exists X l w0 Y,
    split t = (X ++ [l])%list /\
    split (t ++ w) = (X ++ [(l ++ w0)%string] ++ Y)%list /\
    allChars isSpace w0 = true /\ firstSome g Y = None.
Proof.
  intros Hw. induction t as [|c t IH].
  - cbn [append]. destruct w as [|d w].
    + exists [], EmptyString, EmptyString, []. now repeat split.
    + cbn [allChars] in Hw. apply andb_true_iff in Hw as [Hd Hw'].
      pose proof (firstName_spaces w Hw') as Hnone.
      destruct (isLF d) eqn:Hlf.
      * exists [], EmptyString, EmptyString, (split w).
        cbn [split]. rewrite Hlf. now repeat split.
      * destruct (split_cons_other d w Hlf) as (l0 & ls & Es & Ec).
        rewrite Es in Hnone. cbn [firstSome] in Hnone.
        (* the first line of the white space is white space *)
        assert (Hl0 : allChars isSpace l0 = true /\ firstSome g ls = None).
        { clear Ec Hnone. revert l0 ls Es.
          induction w as [|e w IHw]; intros l0 ls Es.
          - injection Es as <- <-. now split.
          - cbn [allChars] in Hw'. apply andb_true_iff in Hw' as [He Hw''].
            destruct (isLF e) eqn:Hle.
            + cbn [split] in Es. rewrite Hle in Es. injection Es as <- <-.
              split; [reflexivity|now apply firstName_spaces].
            + destruct (split_cons_other e w Hle) as (l1 & ls1 & Es1 & Ec1).
              rewrite Ec1 in Es. injection Es as <- <-.
              destruct (IHw Hw'' l1 ls1 Es1) as [H1 H2].
              split; [cbn [allChars]; now rewrite He, H1|exact H2]. }
        destruct Hl0 as [Hl0 Hls].
        exists [], EmptyString, (String d l0), ls. rewrite Ec.
        repeat split; [|exact Hls]. cbn [allChars]. now rewrite Hd, Hl0.
  - destruct IH as (X & l & w0 & Y & Es & Ea & Hw0 & HY).
    destruct (isLF c) eqn:Hlf.
    + exists (EmptyString :: X), l, w0, Y. cbn [append split].
      rewrite Hlf, Es, Ea. now repeat split.
    + cbn [append split]. rewrite Hlf, Es, Ea.
      destruct X as [|x0 X].
      * exists [], (String c l), w0, Y. now repeat split.
      * exists (String c x0 :: X), l, w0, Y. now repeat split.
Qed.

Lemma firstName_trimEnd (s : string) :
  firstSome g (split (trimEnd s)) = firstSome g (split s).
Proof.
  destruct (trimEnd_split s) as (w & Hs & Hw).
  destruct (split_append_spaces (trimEnd s) w Hw)
    as (X & l & w0 & Y & Es & Ea & Hw0 & HY).
  rewrite Hs at 2. rewrite Es, Ea, !firstSome_app. cbn [firstSome].
  unfold g at 2 4. rewrite trim_append_spaces by exact Hw0.
  destruct (firstSome g X); [reflexivity|].
  rewrite HY. fold (g l). now destruct (g l).
Qed.

Lemma firstName_trim (s : string) :
  firstSome g (split (trim s)) = firstSome g (split s).
Proof. unfold trim. now rewrite firstName_trimEnd, firstName_trimStart. Qed.

Lemma catFinish_fold_acc (acc : list FunctionRecord) (ls : list string)
      (st : catState) :
  catFinish (fold_left catStep ls (mkCat (curOpen st) (acc ++ emitted st)))
  = (acc ++ catFinish (fold_left catStep ls st))%list.
Proof.
  rewrite catFold_acc. unfold catFinish. cbn [curOpen emitted].
  destruct (curOpen (fold_left catStep ls st)) as [[n b]|];
    [now rewrite app_assoc|reflexivity].
Qed.

(** The first record of a pass that starts inside a function bears the
    name of that function. *)
Lemma catFold_open_head (ls : list string) (n : string) (b : list string) :
  exists c tail,
    catFinish (fold_left catStep ls (mkCat (Some (n, b)) []))
    = mkRecord n c :: tail.
Proof.
  revert b. induction ls as [|l ls IH]; intros b.
  - now exists (join b), [].
  - cbn [fold_left]. unfold catStep at 2. cbv zeta. cbn [curOpen emitted app].
    destruct (glabelMatch (trim l)) as [fn|].
    + pose proof (catFinish_fold_acc [mkRecord n (join b)] ls
                    (mkCat (Some (fn, [l])) [])) as H.
      cbn [curOpen emitted app] in H. rewrite H. cbn [app]. eauto.
    + destruct (sizeClosesCurrent (trim l) n).
      * pose proof (catFinish_fold_acc [mkRecord n (join (b ++ [l]))] ls
                      (mkCat None [])) as H.
        cbn [curOpen emitted app] in H. rewrite H. cbn [app]. eauto.
      * destruct (includes "glabel" (trim l)).
        -- pose proof (catFinish_fold_acc [mkRecord n (join b)] ls
                         (mkCat (Some (EmptyString, [l])) [])) as H.
           cbn [curOpen emitted app] in H. rewrite H. cbn [app]. eauto.
        -- apply IH.
Qed.

Lemma catalogLines_head (ls : list string) :
  option_map name (hd_error (catalogLines ls)) = firstSome g ls.
Proof.
  unfold catalogLines. induction ls as [|l ls IH]; [reflexivity|].
  cbn [fold_left firstSome]. unfold catStep at 2, g at 1. cbv zeta.
  cbn [catInit curOpen emitted].
  destruct (glabelMatch (trim l)) as [n|].
  - destruct (catFold_open_head ls n [l]) as (c & tail & ->). reflexivity.
  - exact IH.
Qed.

End FirstName.

(** X18: the name that [extractFunctionName] reads from a text is the name
    of the first record that [listAssemblyFunctions] gives for the same
    text, and there is none exactly when the catalog is empty. *)
Theorem X18_function_name_is_first_cataloged (content : string) :
  extractFunctionName content
  = option_map name (hd_error (listAssemblyFunctions content)).
Proof.
  rewrite extractFunctionName_firstSome, listAssemblyFunctions_catalogLines.
  rewrite catalogLines_head. apply firstName_trim.
Qed.

(* ================================================================== *)
(** * The two strategies on a delimited function *)

(** X19: on a function delimited alike for both passes (its [glabel F]
    line is the first start line of [F] and gives the catalog the name
    [F], no function is open before it, its last line holds [.size F] and
    closes [F] in the catalog, and no line between is a stop line or
    closes [F]), the resolver and the catalog agree: the resolver returns
    the lines of the block and the catalog has the record of [F] with the
    same code. *)
Theorem X19_resolver_and_catalog_agree
        (content F : string) (P : list string) (h : string)
        (B : list string) (z : string) (Q : list string) :
  split content = (P ++ h :: B ++ z :: Q)%list ->
  Forall (fun l => isStart F l = false) P ->
  currentFunction (listLoop (split content) P 0 (mkList None [])) = None ->
  glabelMatch (trim h) = Some F ->
  isStartMarker F h = true ->
  Forall (fun l => isStop F l = false /\
                   sizeClosesCurrent (trim l) F = false) B ->
  isSizeMarker F z = true ->
  sizeClosesCurrent (trim z) F = true ->
  glabelMatch (trim z) = None ->
  extractAssemblyFunction content F = Some (join (h :: B ++ [z])) /\
  In (mkRecord F (join (h :: B ++ [z]))) (listAssemblyFunctions content).
Proof.
  intros Hsplit Hbefore Hclosed Hname Hmarker Hbody Hsize Hcloses Hnostart.
  split.
  - apply (removal_extract content F P h B z Q); assumption.
  - rewrite (removal_catalog_before _ _ _ _ _ _ _ Hsplit Hname Hbody
                                    Hcloses Hnostart Hclosed).
    apply in_or_app. right. now left.
Qed.

Lemma X19_resolver_and_catalog_agree_witness :
  extractAssemblyFunction
    (join ["glabel g"; ".size g, .-g"; EmptyString;
           "glabel f"; "jr $ra"; " nop"; ".size f, .-f"; "glabel k"]) "f"
  = Some (join ("glabel f" :: ["jr $ra"; " nop"] ++ [".size f, .-f"])) /\
  In (mkRecord "f" (join ("glabel f" :: ["jr $ra"; " nop"]
                                     ++ [".size f, .-f"])))
     (listAssemblyFunctions
        (join ["glabel g"; ".size g, .-g"; EmptyString;
               "glabel f"; "jr $ra"; " nop"; ".size f, .-f"; "glabel k"])).
Proof.
  apply (X19_resolver_and_catalog_agree
           (join ["glabel g"; ".size g, .-g"; EmptyString;
                  "glabel f"; "jr $ra"; " nop"; ".size f, .-f"; "glabel k"])
           "f" ["glabel g"; ".size g, .-g"; EmptyString]
           "glabel f" ["jr $ra"; " nop"] ".size f, .-f" ["glabel k"]).
  - reflexivity.
  - repeat constructor.
  - reflexivity.
  - reflexivity.
  - reflexivity.
  - repeat constructor.
  - reflexivity.
  - reflexivity.
  - reflexivity.
Defined.

(* ================================================================== *)
(** * What the clean-up keeps *)

Lemma nonEmptyLines_LF (s : string) :
  nonEmptyLines (String LF s) = nonEmptyLines s.
Proof. reflexivity. Qed.

Lemma nonEmptyLines_repeatNL (n : nat) (s : string) :
  nonEmptyLines (repeatNL n ++ s) = nonEmptyLines s.
Proof.
  induction n as [|n IH]; [reflexivity|].
  cbn [repeatNL append]. now rewrite nonEmptyLines_LF.
Qed.

(** The clean-up keeps the first line and the non-empty lines after it. *)
Lemma cleanUp_lines (s : string) :
  hd EmptyString (split (cleanUp s)) = hd EmptyString (split s) /\
  filter (fun l => negb (isEmpty l)) (tl (split (cleanUp s)))
  = filter (fun l => negb (isEmpty l)) (tl (split s)).
Proof.
  induction s as [s IH] using string_length_ind.
  destruct s as [|c s]; [now split|].
  destruct (isLF c) eqn:Hc.
  - pose proof (repeatNL_dropN (String c s)) as E.
    pose proof (cleanUp_run (String c s)) as Er.
    pose proof (length_dropN (runLength isLF (String c s)) (String c s)) as Hl.
    pose proof (runLength_le_length isLF (String c s)) as Hle.
    remember (runLength isLF (String c s)) as n eqn:Hn.
    assert (Hpos : (1 <= n)%nat).
    { rewrite Hn. cbn [runLength]. rewrite Hc. lia. }
    remember (dropN n (String c s)) as t eqn:Ht.
    destruct (IH t ltac:(lia)) as [IH1 IH2].
    assert (Hwhole : nonEmptyLines (cleanUp t) = nonEmptyLines t).
    { unfold nonEmptyLines.
      pose proof (split_nonempty (cleanUp t)) as N1.
      pose proof (split_nonempty t) as N2.
      destruct (split (cleanUp t)) as [|a1 r1]; [contradiction|].
      destruct (split t) as [|a2 r2]; [contradiction|].
      cbn [hd tl] in IH1, IH2. subst a2. cbn [filter]. now rewrite IH2. }
    rewrite Er, E.
    destruct n as [|n]; [lia|].
    assert (Hm : exists m, Nat.min (S n) 2 = S m).
    { destruct n; [now exists 0%nat|exists 1%nat; lia]. }
    destruct Hm as (m & ->).
    cbn [repeatNL append split]. change (isLF LF) with true. cbv iota.
    cbn [hd tl]. split; [reflexivity|].
    change (filter (fun l => negb (isEmpty l)) (split (repeatNL m ++ cleanUp t)))
      with (nonEmptyLines (repeatNL m ++ cleanUp t)).
    change (filter (fun l => negb (isEmpty l)) (split (repeatNL n ++ t)))
      with (nonEmptyLines (repeatNL n ++ t)).
    now rewrite !nonEmptyLines_repeatNL.
  - rewrite cleanUp_head by exact Hc.
    destruct (IH s ltac:(cbn [String.length]; lia)) as [IH1 IH2].
    destruct (split_cons_other c s Hc) as (l0 & ls & Es & ->).
    destruct (split_cons_other c (cleanUp s) Hc) as (l1 & ls1 & Es1 & ->).
    rewrite Es, Es1 in *. cbn [hd tl] in *. subst l1. now split.
Qed.

(** X20: the clean-up deletes nothing but empty lines: the non-empty lines
    of the cleaned text are the non-empty lines of the text, in the same
    order. *)
Theorem X20_clean_up_keeps_non_empty_lines (updatedContent : string) :
  nonEmptyLines (cleanUp updatedContent) = nonEmptyLines updatedContent.
Proof.
  unfold nonEmptyLines. destruct (cleanUp_lines updatedContent) as [H1 H2].
  pose proof (split_nonempty (cleanUp updatedContent)) as N1.
  pose proof (split_nonempty updatedContent) as N2.
  destruct (split (cleanUp updatedContent)) as [|a1 r1]; [contradiction|].
  destruct (split updatedContent) as [|a2 r2]; [contradiction|].
  cbn [hd tl] in H1, H2. subst a2. cbn [filter]. now rewrite H2.
Qed.

(* ================================================================== *)
(** * Blank runs and the catalog *)
















(* ================================================================== *)
(** * Removing a cataloged function *)







Section RoundTrip.
Variables (content F cataloged : string) (P : list string) (h : string)
          (M Q : list string).

Hypothesis Hsplit : split content = (P ++ h :: M ++ Q)%list.
Hypothesis Hstart : functionStart (boundary content F) = len P.
Hypothesis Hextract :
  extractAssemblyFunction content F = Some (join (h :: M)).
Hypothesis Hname : glabelMatch (trim h) = Some F.
Hypothesis Hmarker : isStartMarker F h = true.
Hypothesis Hagree :
  listAssemblyFunctions (join (h :: M ++ Q))
  = mkRecord F cataloged :: listAssemblyFunctions (join Q).
Hypothesis Hruns :
  forall pre r post,
    listAssemblyFunctions content = (pre ++ r :: post)%list ->
    name r <> F ->
    includes (NL ++ NL ++ NL) (code r) = false /\
    (post <> [] -> includes (NL ++ NL ++ NL) (code r ++ NL) = false).
Hypothesis Honce :
  List.length (filter (fun r => String.eqb (name r) F)
                      (listAssemblyFunctions content)) = 1%nat.












Hypothesis Hpred :
  currentFunction (listLoop (split content) P 0 (mkList None [])) = None \/
  (exists P1, P = (P1 ++ [EmptyString])%list) /\
  (exists k q Q1, Q = (repeat EmptyString k ++ q :: Q1)%list /\
                  matchesStart q = true).


End RoundTrip.

(** What the round trip needs, besides a neighbour that is closed or
    followed by an empty line.  Lines of [f] that the resolver leaves
    behind, here the line after [jr], pass to the function that is open
    before [f]. *)
Lemma removal_leaves_lines_behind :
  removeAssemblyFunction
    (join ["glabel g"; "jr $ra"; "nop"; EmptyString;
           "glabel f"; "jr $ra"; "nop"; EmptyString;
           "glabel k"; "jr $ra"; "nop"]) "f"
  = Some (join ["glabel g"; "jr $ra"; "nop"; EmptyString;
                "nop"; EmptyString; "glabel k"; "jr $ra"; "nop"]) /\
  listAssemblyFunctions
    (join ["glabel g"; "jr $ra"; "nop"; EmptyString;
           "glabel f"; "jr $ra"; "nop"; EmptyString;
           "glabel k"; "jr $ra"; "nop"])
  = [mkRecord "g" (join ["glabel g"; "jr $ra"; "nop"; EmptyString]);
     mkRecord "f" (join ["glabel f"; "jr $ra"; "nop"; EmptyString]);
     mkRecord "k" (join ["glabel k"; "jr $ra"; "nop"])] /\
  listAssemblyFunctions
    (join ["glabel g"; "jr $ra"; "nop"; EmptyString;
           "nop"; EmptyString; "glabel k"; "jr $ra"; "nop"])
  = [mkRecord "g" (join ["glabel g"; "jr $ra"; "nop"; EmptyString;
                         "nop"; EmptyString]);
     mkRecord "k" (join ["glabel k"; "jr $ra"; "nop"])].
Proof. repeat split. Qed.

(** The clean-up is global: a blank run inside another function is cut
    when [f] is removed. *)
Lemma removal_cleans_neighbour :
  removeAssemblyFunction
    (join ["glabel g"; "nop"; EmptyString; EmptyString; EmptyString; "nop";
           ".size g"; "glabel f"; ".size f"]) "f"
  = Some (join ["glabel g"; "nop"; EmptyString; "nop"; ".size g";
                EmptyString]) /\
  listAssemblyFunctions
    (join ["glabel g"; "nop"; EmptyString; EmptyString; EmptyString; "nop";
           ".size g"; "glabel f"; ".size f"])
  = [mkRecord "g" (join ["glabel g"; "nop"; EmptyString; EmptyString;
                         EmptyString; "nop"; ".size g"]);
     mkRecord "f" (join ["glabel f"; ".size f"])] /\
  listAssemblyFunctions
    (join ["glabel g"; "nop"; EmptyString; "nop"; ".size g"; EmptyString])
  = [mkRecord "g" (join ["glabel g"; "nop"; EmptyString; "nop"; ".size g"])].
Proof. repeat split. Qed.

(** A second function of the same name stays in the catalog. *)
Lemma removal_keeps_second_copy :
  removeAssemblyFunction
    (join ["glabel f"; ".size f"; "glabel f"; "nop"; ".size f"]) "f"
  = Some (join [EmptyString; "glabel f"; "nop"; ".size f"]) /\
  listAssemblyFunctions (join [EmptyString; "glabel f"; "nop"; ".size f"])
  = [mkRecord "f" (join ["glabel f"; "nop"; ".size f"])].
Proof. repeat split. Qed.


